(** * Pulse: the tab manager, the action executor and the binary framing

    A shallow embedding of [electron/src/index.ts] (main process: tab
    registry, IPC handlers) and of the two binary senders of
    [electron/src/App.tsx] (renderer: audio and screenshot frames),
    followed by the properties the specification states about them.

    Conventions of the embedding:
    - a JavaScript string is the list of its UTF-16 code units;
    - a tab id is an integer-valued JavaScript number, kept in [Z]; the
      only arithmetic on ids is [nextTabId++], whose double-precision
      rounding is written out in [Js.incr]; coordinates and scroll
      amounts are integer-valued numbers as well;
    - the [Map] of tabs is an association list in insertion order;
    - module-level variables of [index.ts] are the fields of [Main.State]
      and every function threads the state explicitly;
    - what a web page contains (its text, its history) belongs to the
      content layer: it is an input of the handler that reads it. *)

From Stdlib Require Import String Ascii.
From Stdlib Require Import ZArith List Bool Lia Sorted.
From Stdlib Require Strings.Byte.
From Stdlib Require QArith Qround.
Import ListNotations.
Local Open Scope Z_scope.

(* ------------------------------------------------------------------ *)
(** ** JavaScript values used by the program *)

Module Js.

(** A string, as its UTF-16 code units. *)
Definition JsString := list Z.

(** A string literal of the source (ASCII). *)
Definition lit (s : string) : JsString :=
  map (fun a => Z.of_nat (nat_of_ascii a)) (list_ascii_of_string s).
Arguments lit s%_string.

Fixpoint eqb (s t : JsString) : bool :=
  match s, t with
  | [], [] => true
  | c :: s', d :: t' => (c =? d) && eqb s' t'
  | _, _ => false
  end.

(** [if (s)]: the empty string is falsy. *)
Definition truthy (s : JsString) : bool :=
  match s with [] => false | _ :: _ => true end.

(** [s.startsWith(p)]. *)
Fixpoint startsWith (s p : JsString) : bool :=
  match p, s with
  | [], _ => true
  | d :: p', c :: s' => (c =? d) && startsWith s' p'
  | _ :: _, [] => false
  end.

Definition clamp (n len : Z) : Z := Z.min (Z.max n 0) len.

(** [s.substring(start, end)]: both indices are clamped to
    [0 .. s.length] and swapped when out of order. *)
Definition substring (s : JsString) (start end_ : Z) : JsString :=
  let len := Z.of_nat (length s) in
  let intStart := clamp start len in
  let intEnd := clamp end_ len in
  let from := Z.min intStart intEnd in
  let to := Z.max intStart intEnd in
  firstn (Z.to_nat (to - from)) (skipn (Z.to_nat from) s).

Definition is_lead (c : Z) : bool := (55296 <=? c) && (c <=? 56319).
Definition is_trail (c : Z) : bool := (56320 <=? c) && (c <=? 57343).

(** [for (const char of s)]: the string iterator yields code points, a
    lead surrogate followed by a trail surrogate being one of them. *)
Fixpoint chars (s : JsString) : list JsString :=
  match s with
  | [] => []
  | c :: r =>
      match r with
      | d :: r' =>
          if is_lead c && is_trail d then [c; d] :: chars r'
          else [c] :: chars r
      | [] => [[c]]
      end
  end.

(** The largest integer up to which every integer is a double. *)
Definition two53 : Z := 9007199254740992.

(** [n + 1] in double precision, for an integer [n] of [0 .. 2^53]:
    [2^53 + 1] is not representable and rounds back to [2^53]. *)
Definition incr (n : Z) : Z := if n <? two53 then n + 1 else n.

(** [amount || dflt] for [amount : number | undefined]: [undefined]
    and [0] are falsy. *)
Definition or_default (amount : option Z) (dflt : Z) : Z :=
  match amount with
  | Some n => if n =? 0 then dflt else n
  | None => dflt
  end.

End Js.

(* ------------------------------------------------------------------ *)
(** ** [Map<number, V>]: keyed, iterated in insertion order *)

Module JsMap.

Section Ops.
Context {V : Type}.

Definition t := list (Z * V).

Definition empty : t := [].

Fixpoint get (k : Z) (m : t) : option V :=
  match m with
  | [] => None
  | (k', v) :: m' => if k' =? k then Some v else get k m'
  end.

Definition has (k : Z) (m : t) : bool :=
  match get k m with Some _ => true | None => false end.

(** [m.set(k, v)]: an existing key keeps its place, a new one goes
    last. *)
Fixpoint set (k : Z) (v : V) (m : t) : t :=
  match m with
  | [] => [(k, v)]
  | (k', v') :: m' =>
      if k' =? k then (k, v) :: m' else (k', v') :: set k v m'
  end.

(** [m.delete(k)]. *)
Fixpoint delete (k : Z) (m : t) : t :=
  match m with
  | [] => []
  | (k', v') :: m' =>
      if k' =? k then m' else (k', v') :: delete k m'
  end.

Definition keys (m : t) : list Z := map fst m.
Definition values (m : t) : list V := map snd m.

(** In-place mutation of the object stored under [k]. *)
Definition modify (k : Z) (f : V -> V) (m : t) : t :=
  map (fun e => if fst e =? k then (fst e, f (snd e)) else e) m.

End Ops.

Arguments t : clear implicits.

End JsMap.

(* ------------------------------------------------------------------ *)
(** ** The part of Electron the main process drives *)

Module Electron.

Import Js.

Record Rectangle := { x : Z; y : Z; width : Z; height : Z }.

Inductive Button := left.

(** The argument of [webContents.sendInputEvent]. *)
Inductive InputEvent :=
| mouseDown (x y : Z) (button : Button) (clickCount : Z)
| mouseUp (x y : Z) (button : Button)
| keyDown (keyCode : JsString)
| char (keyCode : JsString)
| keyUp (keyCode : JsString).

(** The two scripts [index.ts] hands to [executeJavaScript], by their
    syntax tree: [window.scrollBy(dx, dy)] and
    [document.body.innerText.substring(start, end)]. *)
Inductive Script :=
| scrollBy (dx dy : Z)
| innerText_substring (start end_ : Z).

(** What a [WebContents] was asked to do, oldest first. *)
Inductive Request :=
| sendInputEvent (e : InputEvent)
| loadURL (url : JsString)
| executeJavaScript (code : Script)
| goBack
| goForward
| close.

Record WebContents := { requests : list Request }.

Definition request (r : Request) (wc : WebContents) : WebContents :=
  {| requests := requests wc ++ [r] |}.

(** The state of the page shown by a [WebContents] when a handler
    looks at it: the text of [document.body] ([None] when the document
    has no body) and what its history allows. *)
Record Page :=
  { innerText : option JsString;
    canGoBack : bool;
    canGoForward : bool }.

(** The value [executeJavaScript(code)] resolves with; [None] when the
    script throws and the promise is rejected. *)
Inductive Value := undefined | str (s : JsString).

Definition evaluate (p : Page) (code : Script) : option Value :=
  match code with
  | scrollBy _ _ => Some undefined
  | innerText_substring start end_ =>
      match innerText p with
      | Some body => Some (str (substring body start end_))
      | None => None
      end
  end.

(** A [WebContentsView]; [ref] is the identity of the object. *)
Record WebContentsView :=
  { ref : nat;
    visible : bool;
    bounds : Rectangle;
    webContents : WebContents }.

(** [new WebContentsView()]. *)
Definition new_WebContentsView (r : nat) : WebContentsView :=
  {| ref := r;
     visible := true;
     bounds := {| x := 0; y := 0; width := 0; height := 0 |};
     webContents := {| requests := [] |} |}.

Definition setVisible (b : bool) (v : WebContentsView) : WebContentsView :=
  {| ref := ref v; visible := b; bounds := bounds v;
     webContents := webContents v |}.

Definition setBounds (r : Rectangle) (v : WebContentsView) : WebContentsView :=
  {| ref := ref v; visible := visible v; bounds := r;
     webContents := webContents v |}.

Definition on_webContents (f : WebContents -> WebContents)
    (v : WebContentsView) : WebContentsView :=
  {| ref := ref v; visible := visible v; bounds := bounds v;
     webContents := f (webContents v) |}.

(** A message of the main process to the renderer of the window
    ([mainWindow.webContents.send(channel, data)]). *)
Inductive Message :=
| tab_created (id : Z) (url title : JsString)
| tab_updated (id : Z) (url title : JsString)
| tab_switched (id : Z)
| tab_closed (id : Z).

(** The [BrowserWindow]: its content size, the views attached to its
    content view (by identity, bottom first) and what was sent to its
    renderer, oldest first. *)
Record BrowserWindow :=
  { contentSize : Z * Z;
    children : list nat;
    sent : list Message }.

Definition includes (r : nat) (l : list nat) : bool :=
  existsb (Nat.eqb r) l.

Definition addChildView (r : nat) (w : BrowserWindow) : BrowserWindow :=
  {| contentSize := contentSize w;
     children := filter (fun c => negb (Nat.eqb r c)) (children w) ++ [r];
     sent := sent w |}.

Definition removeChildView (r : nat) (w : BrowserWindow) : BrowserWindow :=
  {| contentSize := contentSize w;
     children := filter (fun c => negb (Nat.eqb r c)) (children w);
     sent := sent w |}.

Definition send (m : Message) (w : BrowserWindow) : BrowserWindow :=
  {| contentSize := contentSize w;
     children := children w;
     sent := sent w ++ [m] |}.

End Electron.

(* ------------------------------------------------------------------ *)
(** ** [electron/src/index.ts] *)

Module Main.

Import Js.
Import Electron.

Record Tab :=
  { id : Z;
    view : WebContentsView;
    url : JsString;
    title : JsString }.

Definition with_view (f : WebContentsView -> WebContentsView) (t : Tab) : Tab :=
  {| id := id t; view := f (view t); url := url t; title := title t |}.

Definition with_url (u : JsString) (t : Tab) : Tab :=
  {| id := id t; view := view t; url := u; title := title t |}.

Definition with_title (ti : JsString) (t : Tab) : Tab :=
  {| id := id t; view := view t; url := url t; title := ti |}.

(** The module-level variables; [views] counts the views built so far
    and names the next one. *)
Record State :=
  { mainWindow : option BrowserWindow;
    tabs : JsMap.t Tab;
    activeTabId : option Z;
    nextTabId : Z;
    views : nat }.

Definition set_mainWindow (w : option BrowserWindow) (s : State) : State :=
  {| mainWindow := w; tabs := tabs s; activeTabId := activeTabId s;
     nextTabId := nextTabId s; views := views s |}.

Definition set_tabs (m : JsMap.t Tab) (s : State) : State :=
  {| mainWindow := mainWindow s; tabs := m; activeTabId := activeTabId s;
     nextTabId := nextTabId s; views := views s |}.

Definition set_activeTabId (a : option Z) (s : State) : State :=
  {| mainWindow := mainWindow s; tabs := tabs s; activeTabId := a;
     nextTabId := nextTabId s; views := views s |}.

(** The [webContents] of the tab stored under [k] becomes [f] of it
    (a call on [tab.view.webContents], the tab being the object the map
    holds). *)
Definition on_tab (k : Z) (f : WebContents -> WebContents) (s : State) : State :=
  set_tabs (JsMap.modify k (with_view (on_webContents f)) (tabs s)) s.

(** [mainWindow?.webContents.send(...)]. *)
Definition send_opt (m : Message) (s : State) : State :=
  match mainWindow s with
  | Some w => set_mainWindow (Some (send m w)) s
  | None => s
  end.

Definition getContentBounds (s : State) : Rectangle :=
  match mainWindow s with
  | None => {| x := 0; y := 0; width := 800; height := 600 |}
  | Some w =>
      let (width, height) := contentSize w in
      {| x := 0; y := 80; width := width; height := height - 80 |}
  end.

(** [url.startsWith('http') ? url : `https://${url}`]. *)
Definition fullUrl (url : JsString) : JsString :=
  if startsWith url (lit "http") then url else lit "https://" ++ url.

(** One round of the loop of [switchToTab] on the window... *)
Definition attach (id : Z) (w : BrowserWindow) (e : Z * Tab) : BrowserWindow :=
  if fst e =? id then
    if includes (ref (view (snd e))) (children w) then w
    else addChildView (ref (view (snd e))) w
  else w.

(** ... and on the view of the tab it visits. *)
Definition show_or_hide (id : Z) (r : Rectangle) (e : Z * Tab) : Z * Tab :=
  if fst e =? id then
    (fst e, with_view (fun v => setVisible true (setBounds r v)) (snd e))
  else
    (fst e, with_view (setVisible false) (snd e)).

(** Without a window, or for an id the map does not hold, nothing
    happens; otherwise every tab is visited in the order of the map. *)
Definition switchToTab (id : Z) (s : State) : State :=
  match mainWindow s with
  | None => s
  | Some w =>
      match JsMap.get id (tabs s) with
      | None => s
      | Some _ =>
          let w1 := fold_left (attach id) (tabs s) w in
          let tabs1 := map (show_or_hide id (getContentBounds s)) (tabs s) in
          {| mainWindow := Some (send (tab_switched id) w1);
             tabs := tabs1;
             activeTabId := Some id;
             nextTabId := nextTabId s;
             views := views s |}
      end
  end.

(** [createTab]; the tab it returns is the object the map holds, as it
    is when the function returns. *)
Definition createTab (url : JsString) (s : State) : State * Tab :=
  let id := nextTabId s in
  let view := new_WebContentsView (views s) in
  let tab := {| id := id; view := view; url := url; title := lit "New Tab" |} in
  let s1 :=
    {| mainWindow := mainWindow s;
       tabs := JsMap.set id tab (tabs s);
       activeTabId := activeTabId s;
       nextTabId := incr id;
       views := S (views s) |} in
  let s2 :=
    if truthy url then on_tab id (request (loadURL (fullUrl url))) s1
    else s1 in
  let s3 := switchToTab id s2 in
  let s4 := send_opt (tab_created id url (lit "New Tab")) s3 in
  (s4, match JsMap.get id (tabs s4) with Some t => t | None => tab end).

(** [remaining[remaining.length - 1]]. *)
Definition last_of (remaining : list Z) : option Z :=
  nth_error remaining (List.length remaining - 1).

(** [closeTab], up to [tabs.delete(id)]. *)
Definition remove_tab (id : Z) (tab : Tab) (w : BrowserWindow) (s : State)
  : State :=
  let w1 := removeChildView (ref (view tab)) w in
  let s1 := on_tab id (request close) (set_mainWindow (Some w1) s) in
  set_tabs (JsMap.delete id (tabs s1)) s1.

(** [closeTab], the [if (activeTabId === id)] statement. *)
Definition fall_back (id : Z) (s : State) : State :=
  match activeTabId s with
  | Some a =>
      if a =? id then
        let remaining := JsMap.keys (tabs s) in
        if 0 <? Z.of_nat (List.length remaining) then
          match last_of remaining with
          | Some k => switchToTab k s
          | None => s
          end
        else set_activeTabId None s
      else s
  | None => s
  end.

(** [if (!tab || !mainWindow) return;] and the rest. *)
Definition closeTab (id : Z) (s : State) : State :=
  match JsMap.get id (tabs s), mainWindow s with
  | Some tab, Some w =>
      send_opt (tab_closed id) (fall_back id (remove_tab id tab w s))
  | _, _ => s
  end.

(** *** IPC handlers ([setupIPC]) *)

(** The reply of the handlers that answer
    [{ success, text?, error? }]. *)
Record Result :=
  { success : bool;
    text : option JsString;
    error : option JsString }.

Definition ok : Result :=
  {| success := true; text := None; error := None |}.

Definition failure (msg : JsString) : Result :=
  {| success := false; text := None; error := Some msg |}.

(** The argument of ['execute-action']; an absent field is [None]. *)
Module Action.
Record t :=
  { type : JsString;
    x : option Z;
    y : option Z;
    text : option JsString;
    direction : option JsString;
    amount : option Z }.
End Action.
Abbreviation Action := Action.t.

(** What the caller of [ipcRenderer.invoke] gets back. *)
Inductive Reply :=
| created (id : Z) (url : JsString)
| result (r : Result)
| rejected.

Definition create_tab (url : JsString) (s : State) : State * Reply :=
  let (s', tab) := createTab url s in
  (s', created (id tab) (Main.url tab)).

Definition switch_tab (id : Z) (s : State) : State * Reply :=
  (switchToTab id s, result ok).

Definition close_tab (id : Z) (s : State) : State * Reply :=
  (closeTab id s, result ok).

Definition navigate (url : JsString) (s : State) : State * Reply :=
  match activeTabId s with
  | None => (fst (createTab url s), result ok)
  | Some a =>
      match JsMap.get a (tabs s) with
      | Some _ => (on_tab a (request (loadURL (fullUrl url))) s, result ok)
      | None => (s, result ok)
      end
  end.

(** The requests one [case] of the [switch] makes to the active tab's
    [webContents]. *)
Definition click_requests (a : Action) : list Request :=
  match Action.x a, Action.y a with
  | Some ax, Some ay =>
      [sendInputEvent (mouseDown ax ay left 1);
       sendInputEvent (mouseUp ax ay left)]
  | _, _ => []
  end.

(** The body of [for (const char of action.text)]. *)
Definition type_char (wc : WebContents) (c : JsString) : WebContents :=
  request (sendInputEvent (keyUp c))
    (request (sendInputEvent (char c))
       (request (sendInputEvent (keyDown c)) wc)).

Definition type_text (a : Action) (wc : WebContents) : WebContents :=
  match Action.text a with
  | Some t => if truthy t then fold_left type_char (chars t) wc else wc
  | None => wc
  end.

(** [action.direction === 'up' ? -(action.amount || 500)
                               : (action.amount || 500)]. *)
Definition scroll_delta (a : Action) : Z :=
  match Action.direction a with
  | Some d =>
      if Js.eqb d (lit "up") then - (or_default (Action.amount a) 500)
      else or_default (Action.amount a) 500
  | None => or_default (Action.amount a) 500
  end.

Definition is_type (a : Action) (name : string) : bool :=
  Js.eqb (Action.type a) (lit name).

Definition add_requests (l : list Request) (wc : WebContents) : WebContents :=
  fold_left (fun w r => request r w) l wc.

(** ['execute-action']; [page] is what the active tab shows when the
    handler runs. *)
Definition execute_action (a : Action) (page : Page) (s : State)
  : State * Reply :=
  match activeTabId s with
  | None => (s, result (failure (lit "No active tab")))
  | Some act =>
      match JsMap.get act (tabs s) with
      | None => (s, result (failure (lit "Tab not found")))
      | Some tab =>
          if is_type a "click" then
            (on_tab act (add_requests (click_requests a)) s, result ok)
          else if is_type a "type" then
            (on_tab act (type_text a) s, result ok)
          else if is_type a "scroll" then
            let code := scrollBy 0 (scroll_delta a) in
            let s' := on_tab act (request (executeJavaScript code)) s in
            match evaluate page code with
            | Some _ => (s', result ok)
            | None => (s', rejected)
            end
          else if is_type a "enter" then
            (on_tab act
               (add_requests
                  [sendInputEvent (keyDown (lit "Return"));
                   sendInputEvent (keyUp (lit "Return"))]) s,
             result ok)
          else if is_type a "back" then
            ((if canGoBack page then on_tab act (request goBack) s else s),
             result ok)
          else if is_type a "forward" then
            ((if canGoForward page then on_tab act (request goForward) s else s),
             result ok)
          else if is_type a "extract-text" then
            let code := innerText_substring 0 5000 in
            let s' := on_tab act (request (executeJavaScript code)) s in
            match evaluate page code with
            | Some (str t) =>
                (s', result {| success := true; text := Some t; error := None |})
            | Some undefined => (s', result ok)
            | None => (s', rejected)
            end
          else
            (s, result (failure (lit "Unknown action: " ++ Action.type a)))
      end
  end.

(** One element of the answer of ['get-tabs']. *)
Module TabInfo.
Record t :=
  { id : Z;
    url : JsString;
    title : JsString;
    active : bool }.
End TabInfo.
Abbreviation TabInfo := TabInfo.t.

(** [t.id === activeTabId]. *)
Definition is_active (s : State) (t : Tab) : bool :=
  match activeTabId s with
  | Some a => id t =? a
  | None => false
  end.

Definition get_tabs (s : State) : list TabInfo :=
  map (fun t => {| TabInfo.id := id t; TabInfo.url := url t;
                   TabInfo.title := title t;
                   TabInfo.active := is_active s t |})
      (JsMap.values (tabs s)).

(** *** Events of the content layer ([createTab] subscribes each view
    under the id of its tab) *)

Definition did_navigate (id : Z) (navUrl : JsString) (s : State) : State :=
  match JsMap.get id (tabs s) with
  | Some tab =>
      send_opt (tab_updated id navUrl (title tab))
        (set_tabs (JsMap.modify id (with_url navUrl) (tabs s)) s)
  | None => s
  end.

Definition page_title_updated (id : Z) (ti : JsString) (s : State) : State :=
  match JsMap.get id (tabs s) with
  | Some tab =>
      send_opt (tab_updated id (url tab) ti)
        (set_tabs (JsMap.modify id (with_title ti) (tabs s)) s)
  | None => s
  end.

(** *** Runs *)

(** The state before any tab exists; [w] is [mainWindow] ([None] as
    long as no window was created). *)
Definition initial (w : option BrowserWindow) : State :=
  {| mainWindow := w;
     tabs := JsMap.empty;
     activeTabId := None;
     nextTabId := 1;
     views := 0 |}.

(** What can happen to the state while the window lives: a request of
    the renderer, or an event of a page. *)
Inductive Op :=
| CreateTab (url : JsString)
| SwitchTab (id : Z)
| CloseTab (id : Z)
| Navigate (url : JsString)
| ExecuteAction (a : Action) (page : Page)
| DidNavigate (id : Z) (navUrl : JsString)
| PageTitleUpdated (id : Z) (title : JsString).

Definition step (op : Op) (s : State) : State * option Reply :=
  match op with
  | CreateTab url => let (s', r) := create_tab url s in (s', Some r)
  | SwitchTab id => let (s', r) := switch_tab id s in (s', Some r)
  | CloseTab id => let (s', r) := close_tab id s in (s', Some r)
  | Navigate url => let (s', r) := navigate url s in (s', Some r)
  | ExecuteAction a page => let (s', r) := execute_action a page s in (s', Some r)
  | DidNavigate id navUrl => (did_navigate id navUrl s, None)
  | PageTitleUpdated id ti => (page_title_updated id ti s, None)
  end.

(** Runs the operations in order; the replies come out oldest first. *)
Fixpoint run (ops : list Op) (s : State) : State * list (option Reply) :=
  match ops with
  | [] => (s, [])
  | op :: ops' =>
      let (s1, r) := step op s in
      let (s2, rs) := run ops' s1 in
      (s2, r :: rs)
  end.

Definition exec (ops : list Op) (s : State) : State := fst (run ops s).

(** The ids the ['create-tab'] requests of a run were answered with. *)
Fixpoint created_ids (rs : list (option Reply)) : list Z :=
  match rs with
  | [] => []
  | Some (created i _) :: rs' => i :: created_ids rs'
  | _ :: rs' => created_ids rs'
  end.

End Main.

(* ------------------------------------------------------------------ *)
(** ** Base64, as the platform provides it *)

Module Base64.

Import Js.

Definition byte := Byte.byte.

(** The value of a byte, and the byte of a value of [0 .. 255]. *)
Definition byte_val (b : byte) : Z := Z.of_N (Byte.to_N b).

(** The conversion a [Uint8Array] applies to a number stored in it. *)
Definition to_uint8 (z : Z) : byte :=
  match Byte.of_N (Z.to_N (z mod 256)) with
  | Some b => b
  | None => Byte.x00
  end.

(** A byte sequence read as a string, one code unit per byte (what
    [atob] returns). *)
Definition binary_string (p : list byte) : JsString := map byte_val p.

Definition is_byte (z : Z) : Prop := 0 <= z < 256.
Definition is_six (n : Z) : Prop := 0 <= n < 64.

(** The character of a 6-bit value in [A-Za-z0-9+/]. *)
Definition alphabet (n : Z) : Z :=
  if n <? 26 then 65 + n
  else if n <? 52 then 71 + n
  else if n <? 62 then n - 4
  else if n =? 62 then 43
  else 47.

(** The bits of a byte sequence (by the values of the bytes), cut into
    groups of six; the last group is filled up with zero bits. *)
Fixpoint sixes (l : list Z) : list Z :=
  match l with
  | a :: b :: c :: r =>
      a / 4 :: a mod 4 * 16 + b / 16 :: b mod 16 * 4 + c / 64 :: c mod 64
        :: sixes r
  | [a; b] => [a / 4; a mod 4 * 16 + b / 16; b mod 16 * 4]
  | [a] => [a / 4; a mod 4 * 16]
  | [] => []
  end.

(** The [=] signs that bring the length to a multiple of four. *)
Fixpoint padding (l : list Z) : JsString :=
  match l with
  | _ :: _ :: _ :: r => padding r
  | [_; _] => [61]
  | [_] => [61; 61]
  | [] => []
  end.

(** [buf.toString('base64')]. *)
Definition toString_base64 (p : list byte) : JsString :=
  map alphabet (sixes (map byte_val p)) ++ padding (map byte_val p).

(** The 6-bit value of a character of the alphabet. *)
Definition sextet (c : Z) : option Z :=
  if (65 <=? c) && (c <=? 90) then Some (c - 65)
  else if (97 <=? c) && (c <=? 122) then Some (c - 71)
  else if (48 <=? c) && (c <=? 57) then Some (c + 4)
  else if c =? 43 then Some 62
  else if c =? 47 then Some 63
  else None.

Fixpoint sextets (s : JsString) : option (list Z) :=
  match s with
  | [] => Some []
  | c :: s' =>
      match sextet c, sextets s' with
      | Some n, Some l => Some (n :: l)
      | _, _ => None
      end
  end.

(** Four characters give three bytes; a rest of three gives two bytes
    and a rest of two gives one, the spare bits being dropped. *)
Fixpoint decode (l : list Z) : list Z :=
  match l with
  | a :: b :: c :: d :: r =>
      let n := ((a * 64 + b) * 64 + c) * 64 + d in
      n / 65536 :: n / 256 mod 256 :: n mod 256 :: decode r
  | [a; b; c] =>
      let n := (a * 64 + b) * 64 + c in
      [n / 1024; n / 4 mod 256]
  | [a; b] => [(a * 64 + b) / 16]
  | _ => []
  end.

Definition is_whitespace (c : Z) : bool :=
  (c =? 9) || (c =? 10) || (c =? 12) || (c =? 13) || (c =? 32).

(** Drops one or two [=] at the end. *)
Definition strip_padding (s : JsString) : JsString :=
  match rev s with
  | c1 :: c2 :: r =>
      if c1 =? 61 then if c2 =? 61 then rev r else rev (c2 :: r) else s
  | [c1] => if c1 =? 61 then [] else s
  | [] => s
  end.

(** [atob(s)] (forgiving-base64 decode): [None] when it throws. *)
Definition atob (s : JsString) : option JsString :=
  let s1 := filter (fun c => negb (is_whitespace c)) s in
  let s2 :=
    if Z.of_nat (List.length s1) mod 4 =? 0 then strip_padding s1 else s1 in
  if Z.of_nat (List.length s2) mod 4 =? 1 then None
  else
    match sextets s2 with
    | Some l => Some (decode l)
    | None => None
    end.

End Base64.

(* ------------------------------------------------------------------ *)
(** ** [electron/src/App.tsx]: the binary senders *)

Module App.

Import Js.
Import Base64.

Definition Uint8Array := list byte.

(** [new Uint8Array(n)]: [n] zero bytes. *)
Definition new_Uint8Array (n : nat) : Uint8Array := repeat Byte.x00 n.

(** [target.set(source, offset)]; a source that does not fit is a
    [RangeError] ([None]). *)
Definition set (target source : Uint8Array) (offset : nat) : option Uint8Array :=
  if (offset + List.length source <=? List.length target)%nat then
    Some (firstn offset target ++ source
            ++ skipn (offset + List.length source) target)
  else None.

(** [view[i] = b]; a write past the end is ignored. *)
Fixpoint store (i : nat) (b : byte) (view : Uint8Array) : Uint8Array :=
  match view, i with
  | [], _ => []
  | _ :: r, O => b :: r
  | a :: r, S i' => a :: store i' b r
  end.

(** [bytes.charCodeAt(i)]; [NaN] past the end, stored as [0]. *)
Definition charCodeAt (s : JsString) (i : nat) : Z := nth i s 0.

Inductive ReadyState := CONNECTING | OPEN | CLOSING | CLOSED.

Inductive Data :=
| binary (bytes : list byte)
| text (s : JsString).

(** The socket [wsRef.current] points to, with what was handed to its
    [send], oldest first. *)
Record WebSocket :=
  { readyState : ReadyState;
    sent : list Data }.

Definition send (d : Data) (ws : WebSocket) : WebSocket :=
  {| readyState := readyState ws; sent := sent ws ++ [d] |}.

Definition is_open (ws : WebSocket) : bool :=
  match readyState ws with OPEN => true | _ => false end.

(** The frame [sendAudio] builds. *)
Definition audio_frame (pcmData : list byte) : option Uint8Array :=
  let header := [Byte.x01] in
  let combined := new_Uint8Array (List.length header + List.length pcmData) in
  match set combined header 0 with
  | Some c1 => set c1 pcmData (List.length header)
  | None => None
  end.

(** [sendAudio(pcmData)] on [wsRef.current]; [None] is an exception. *)
Definition sendAudio (pcmData : list byte) (wsRef : option WebSocket)
  : option (option WebSocket) :=
  match wsRef with
  | Some ws =>
      if is_open ws then
        match audio_frame pcmData with
        | Some combined => Some (Some (send (binary combined) ws))
        | None => None
        end
      else Some wsRef
  | None => Some wsRef
  end.

(** The frame [sendScreenshot] builds from [bytes = atob(base64)]. *)
Definition screenshot_frame (bytes : JsString) : Uint8Array :=
  let view := new_Uint8Array (List.length bytes + 1) in
  let view := store 0 Byte.x02 view in
  fold_left
    (fun v i => store (i + 1) (to_uint8 (charCodeAt bytes i)) v)
    (seq 0 (List.length bytes)) view.

Definition sendScreenshot (base64 : JsString) (wsRef : option WebSocket)
  : option (option WebSocket) :=
  match wsRef with
  | Some ws =>
      if is_open ws then
        match atob base64 with
        | Some bytes => Some (Some (send (binary (screenshot_frame bytes)) ws))
        | None => None
        end
      else Some wsRef
  | None => Some wsRef
  end.

End App.

(* ------------------------------------------------------------------ *)
(** ** The receiving side of the transport *)

Module Backend.

Import Base64.

(** Modelled from the spec: the decoder of the receiving side (the
    backend service) is not among the sources.  The specification gives
    the layout of a binary message, one discriminator byte followed by
    the payload ([0x01] audio, [0x02] imagery), the message boundary of
    the transport being the end of the frame. *)
Definition decode_frame (message : list byte) : option (byte * list byte) :=
  match message with
  | discriminator :: payload => Some (discriminator, payload)
  | [] => None
  end.

End Backend.

(* ------------------------------------------------------------------ *)
(** ** What holds of a state between two operations *)

Module Invariant.

Import Js.
Import Main.

(** A key is below the counter, or the counter is stuck at [2^53] and
    the key is the one it keeps handing out. *)
Definition handed_out (next k : Z) : Prop :=
  k < next \/ (k = two53 /\ next = two53).

(** A tab sits under its own id. *)
Definition id_in_place (e : Z * Tab) : Prop := id (snd e) = fst e.

(** The keys of the map grow along the insertion order, ids and keys
    agree, the counter is an integer of [1 .. 2^53] above the keys, and
    an active id names a tab of the map, in a window. *)
Record Inv (s : State) : Prop :=
  { inv_sorted : StronglySorted Z.lt (JsMap.keys (tabs s));
    inv_ids : Forall id_in_place (tabs s);
    inv_next : 1 <= nextTabId s <= two53;
    inv_keys : Forall (handed_out (nextTabId s)) (JsMap.keys (tabs s));
    inv_active :
      forall a, activeTabId s = Some a ->
                In a (JsMap.keys (tabs s)) /\ mainWindow s <> None }.

(** The entries of ['get-tabs'] marked active. *)
Definition active_entries (s : State) : list TabInfo :=
  filter TabInfo.active (get_tabs s).

End Invariant.

(* ------------------------------------------------------------------ *)
(** ** Concrete sessions *)

Module Scenario.

Import Js.
Import Electron.
Import Main.

(** A window right after [createWindow] built it. *)
Definition window : BrowserWindow :=
  {| contentSize := (1280, 900); children := []; sent := [] |}.

Definition start : State := initial (Some window).

(** A loaded page with an empty body. *)
Definition blank : Page :=
  {| innerText := Some []; canGoBack := false; canGoForward := false |}.

Definition page_with (body : JsString) : Page :=
  {| innerText := Some body; canGoBack := false; canGoForward := false |}.

Definition action (name : string) : Action :=
  {| Action.type := lit name; Action.x := None; Action.y := None;
     Action.text := None; Action.direction := None; Action.amount := None |}.
Arguments action name%_string.

(** [{ type: 'click', x: 10, y: 10 }]. *)
Definition click_10_10 : Action :=
  {| Action.type := lit "click"; Action.x := Some 10; Action.y := Some 10;
     Action.text := None; Action.direction := None; Action.amount := None |}.

(** [{ type: 'scroll', direction, amount }]. *)
Definition scroll (dir : string) (amount : option Z) : Action :=
  {| Action.type := lit "scroll"; Action.x := None; Action.y := None;
     Action.text := None; Action.direction := Some (lit dir);
     Action.amount := amount |}.
Arguments scroll dir%_string amount.

(** [{ type: 'type', text }]. *)
Definition type_ (t : JsString) : Action :=
  {| Action.type := lit "type"; Action.x := None; Action.y := None;
     Action.text := Some t; Action.direction := None; Action.amount := None |}.

(** Three tabs opened one after the other; the third one is active. *)
Definition three_tabs : list Op :=
  [CreateTab []; CreateTab (lit "example.com"); CreateTab []].

(** One tab, showing whatever it was opened with. *)
Definition one_tab : State := exec [CreateTab []] start.

(** Opens, a close and a navigation in between. *)
Definition busy_session : list Op :=
  [CreateTab []; CreateTab []; CloseTab 2; CloseTab 1;
   Navigate (lit "example.com"); CreateTab []; SwitchTab 3; CreateTab []].

End Scenario.

(* ------------------------------------------------------------------ *)
(** ** [electron/src/index.ts]: the window and the screenshots *)

Module Window.

Import Js.
Import Electron.
Import Main.
Import Base64.

Definition set_contentSize (size : Z * Z) (w : BrowserWindow) : BrowserWindow :=
  {| contentSize := size; children := children w; sent := sent w |}.

(** The listener of ['resize'], run once the content size of the window
    has become [size]; without a window there is no such event. *)
Definition resize (size : Z * Z) (s : State) : State :=
  match mainWindow s with
  | None => s
  | Some w =>
      let s1 := set_mainWindow (Some (set_contentSize size w)) s in
      match activeTabId s1 with
      | Some a =>
          match JsMap.get a (tabs s1) with
          | Some _ =>
              set_tabs (JsMap.modify a
                          (with_view (setBounds (getContentBounds s1)))
                          (tabs s1)) s1
          | None => s1
          end
      | None => s1
      end
  end.

(** [captureActiveTab]; [jpeg v] is what
    [capturePage().resize(...).toJPEG(70)] gives for the view [v] when
    the function runs, [None] when one of the three throws. *)
Definition captureActiveTab (jpeg : WebContentsView -> option (list byte))
    (s : State) : option (list byte) :=
  match activeTabId s with
  | None => None
  | Some a =>
      match JsMap.get a (tabs s) with
      | None => None
      | Some tab => jpeg (view tab)
      end
  end.

(** The handler of ['capture-screenshot']: the base64 text, or null. *)
Definition capture_screenshot (jpeg : WebContentsView -> option (list byte))
    (s : State) : option JsString :=
  match captureActiveTab jpeg s with
  | Some buf => Some (toString_base64 buf)
  | None => None
  end.

(** One round of the interval of [createWindow]: the payload of the
    ['screenshot-captured'] message it sends, [None] when it sends
    none. *)
Definition screenshot_tick (jpeg : WebContentsView -> option (list byte))
    (s : State) : option JsString :=
  match captureActiveTab jpeg s, mainWindow s with
  | Some buf, Some _ => Some (toString_base64 buf)
  | _, _ => None
  end.

(** What the main process reacts to while its window lives. *)
Inductive Event :=
| ipc (op : Op)
| resized (width height : Z).

Definition handle (e : Event) (s : State) : State :=
  match e with
  | ipc op => fst (step op s)
  | resized width height => resize (width, height) s
  end.

(** The state after the events, handled in order. *)
Definition after (evs : list Event) (s : State) : State :=
  fold_left (fun s e => handle e s) evs s.

End Window.

(* ------------------------------------------------------------------ *)
(** ** [electron/src/App.tsx]: the tab list and the log *)

Module Renderer.

Import Js.
Import Electron.

(** The state [tabs] and [activeTabId] of the component; a tab of the
    renderer has the fields of an entry of ['get-tabs']. *)
Record Tabs :=
  { tabs : list Main.TabInfo;
    activeTabId : option Z }.

(** [useState([])], [useState(null)]. *)
Definition mounted : Tabs := {| tabs := []; activeTabId := None |}.

Definition onTabCreated (id : Z) (url title : JsString) (ui : Tabs) : Tabs :=
  {| tabs :=
       tabs ui
       ++ [{| Main.TabInfo.id := id; Main.TabInfo.url := url;
              Main.TabInfo.title := title; Main.TabInfo.active := true |}];
     activeTabId := Some id |}.

(** [t.id === data.id ? { ...t, ...data } : t]. *)
Definition onTabUpdated (id : Z) (url title : JsString) (ui : Tabs) : Tabs :=
  {| tabs :=
       map (fun t =>
              if Main.TabInfo.id t =? id then
                {| Main.TabInfo.id := id; Main.TabInfo.url := url;
                   Main.TabInfo.title := title;
                   Main.TabInfo.active := Main.TabInfo.active t |}
              else t)
           (tabs ui);
     activeTabId := activeTabId ui |}.

Definition onTabSwitched (id : Z) (ui : Tabs) : Tabs :=
  {| tabs :=
       map (fun t =>
              {| Main.TabInfo.id := Main.TabInfo.id t;
                 Main.TabInfo.url := Main.TabInfo.url t;
                 Main.TabInfo.title := Main.TabInfo.title t;
                 Main.TabInfo.active := Main.TabInfo.id t =? id |})
           (tabs ui);
     activeTabId := Some id |}.

Definition onTabClosed (id : Z) (ui : Tabs) : Tabs :=
  {| tabs := filter (fun t => negb (Main.TabInfo.id t =? id)) (tabs ui);
     activeTabId := activeTabId ui |}.

(** The listener the message reaches. *)
Definition receive (m : Message) (ui : Tabs) : Tabs :=
  match m with
  | tab_created id url title => onTabCreated id url title ui
  | tab_updated id url title => onTabUpdated id url title ui
  | tab_switched id => onTabSwitched id ui
  | tab_closed id => onTabClosed id ui
  end.

(** The component after the messages, received in the order sent. *)
Definition replay (ms : list Message) (ui : Tabs) : Tabs :=
  fold_left (fun u m => receive m u) ms ui.

(** *** The log *)

Inductive LogType := user | agent | action | error.

Record LogEntry :=
  { type : LogType;
    text : JsString;
    timestamp : Z }.

(** [arr.slice(start)]: a negative [start] counts from the end. *)
Definition slice {A : Type} (start : Z) (arr : list A) : list A :=
  let len := Z.of_nat (List.length arr) in
  let k := if start <? 0 then Z.max (len + start) 0 else Z.min start len in
  skipn (Z.to_nat k) arr.

(** The update [addLog] hands to [setAgentLog]; [now] is [Date.now()]. *)
Definition addLog (ty : LogType) (txt : JsString) (now : Z)
    (prev : list LogEntry) : list LogEntry :=
  slice (-50) prev ++ [{| type := ty; text := txt; timestamp := now |}].

(** The log after the calls of [addLog], oldest first, each given by
    its entry. *)
Definition logged (calls : list LogEntry) : list LogEntry :=
  fold_left (fun prev e => addLog (type e) (text e) (timestamp e) prev)
            calls [].

End Renderer.

(* ------------------------------------------------------------------ *)
(** ** The microphone samples ([VoiceOrb], [onaudioprocess]) *)

Module VoiceOrb.

(** [Math.max(-32768, Math.min(32767, Math.floor(x * 32768)))] for a
    finite sample [x]: a float is a rational, and its product with
    [2^15] and the floor of it are exact in double precision. *)
Definition quantize (x : QArith_base.Q) : Z :=
  Z.max (-32768)
    (Z.min 32767
       (Qround.Qfloor (QArith_base.Qmult x (QArith_base.inject_Z 32768)))).

(** The conversion an [Int16Array] applies to a number stored in it. *)
Definition to_int16 (v : Z) : Z := (v + 32768) mod 65536 - 32768.

(** [int16[i]] after the assignment of the loop. *)
Definition stored (x : QArith_base.Q) : Z := to_int16 (quantize x).

End VoiceOrb.

(* ------------------------------------------------------------------ *)
(** ** What holds of the views between two events *)

Module Layout.

Import Js.
Import Electron.
Import Main.

(** A view is visible exactly when its tab is the active one. *)
Definition only_active_visible (s : State) : Prop :=
  Forall (fun e => visible (view (snd e)) = is_active s (snd e)) (tabs s).

(** The view of the active tab fills the content area and is a child
    of the content view. *)
Definition active_laid_out (s : State) : Prop :=
  forall a t w,
    activeTabId s = Some a -> JsMap.get a (tabs s) = Some t ->
    mainWindow s = Some w ->
    bounds (view t) = getContentBounds s /\ In (ref (view t)) (children w).

Definition ref_of (e : Z * Tab) : nat := ref (view (snd e)).

(** The views of the tabs are distinct objects, built before now. *)
Definition distinct_views (s : State) : Prop :=
  NoDup (map ref_of (tabs s))
  /\ Forall (fun e => (ref_of e < views s)%nat) (tabs s).

(** Every child of the content view is the view of a tab of the map. *)
Definition children_owned (s : State) : Prop :=
  forall w r,
    mainWindow s = Some w -> In r (children w) -> In r (map ref_of (tabs s)).

(** A change of a tab that leaves its id and its view alone, but for
    the [webContents]. *)
Definition keeps_view (f : Tab -> Tab) : Prop :=
  forall t,
    id (f t) = id t /\ ref (view (f t)) = ref (view t)
    /\ visible (view (f t)) = visible (view t)
    /\ bounds (view (f t)) = bounds (view t).

(** A state with a window whose views are as they should. *)
Record Shown (s : State) : Prop :=
  { shown_Inv : Invariant.Inv s;
    shown_window : mainWindow s <> None;
    shown_visible : only_active_visible s;
    shown_laid_out : active_laid_out s;
    shown_distinct : distinct_views s }.

(** What the window was handed for its renderer so far. *)
Definition outbox (s : State) : list Message :=
  match mainWindow s with
  | Some w => sent w
  | None => []
  end.

(** The entry of ['get-tabs'] for a tab, [a] being [activeTabId]. *)
Definition info (a : option Z) (t : Tab) : TabInfo :=
  {| TabInfo.id := id t; TabInfo.url := url t; TabInfo.title := title t;
     TabInfo.active := match a with Some k => id t =? k | None => false end |}.

(** The entry with its mark set by comparison with [i]. *)
Definition mark (i : Z) (e : TabInfo) : TabInfo :=
  {| TabInfo.id := TabInfo.id e; TabInfo.url := TabInfo.url e;
     TabInfo.title := TabInfo.title e;
     TabInfo.active := TabInfo.id e =? i |}.

Definition unmark (e : TabInfo) : TabInfo :=
  {| TabInfo.id := TabInfo.id e; TabInfo.url := TabInfo.url e;
     TabInfo.title := TabInfo.title e; TabInfo.active := false |}.

Definition with_info_url (i : Z) (u : JsString) (e : TabInfo) : TabInfo :=
  if TabInfo.id e =? i then
    {| TabInfo.id := TabInfo.id e; TabInfo.url := u;
       TabInfo.title := TabInfo.title e; TabInfo.active := TabInfo.active e |}
  else e.

Definition with_info_title (i : Z) (ti : JsString) (e : TabInfo) : TabInfo :=
  if TabInfo.id e =? i then
    {| TabInfo.id := TabInfo.id e; TabInfo.url := TabInfo.url e;
       TabInfo.title := ti; TabInfo.active := TabInfo.active e |}
  else e.

(** The component shows the tabs of the main process, and knows the
    active one when there is one. *)
Definition mirrors (s : State) (ui : Renderer.Tabs) : Prop :=
  Renderer.tabs ui = get_tabs s
  /\ forall a, activeTabId s = Some a -> Renderer.activeTabId ui = Some a.

End Layout.

(* ------------------------------------------------------------------ *)
(** ** More concrete sessions *)

Module Session.

Import Js.
Import Electron.
Import Main.
Import Window.
Import Scenario.

(** Two tabs, then the window is resized. *)
Definition two_tabs_resized : list Event :=
  [ipc (CreateTab []); ipc (CreateTab (lit "example.com")); resized 800 600].

(** Tabs come and go, pages report urls and titles. *)
Definition browsing : list Event :=
  [ipc (CreateTab []); ipc (CreateTab (lit "example.com"));
   ipc (DidNavigate 2 (lit "https://example.com/"));
   ipc (PageTitleUpdated 2 (lit "Example Domain"));
   ipc (CreateTab []); ipc (SwitchTab 1); resized 1024 768;
   ipc (CloseTab 1); ipc (Navigate (lit "example.org"))].

(** Two tabs, the second one active, as a run of requests. *)
Definition two_tabs : list Op := [CreateTab []; CreateTab (lit "example.com")].

(** The window at the end of [browsing]. *)
Definition browsing_window : BrowserWindow :=
  match mainWindow (after browsing start) with
  | Some w => w
  | None => window
  end.

End Session.

(* ------------------------------------------------------------------ *)
(** ** Facts about the map *)

Module JsMapFacts.

Import JsMap.

Section Facts.
Context {V : Type}.
Implicit Types (m : t V) (k : Z) (v : V).

Lemma get_in_keys k m v : get k m = Some v -> In k (keys m).
Proof.
  induction m as [|[k' v'] m IH]; simpl; [discriminate|].
  destruct (Z.eqb_spec k' k); auto.
Qed.

Lemma get_in k m v : get k m = Some v -> In (k, v) m.
Proof.
  induction m as [|[k' v'] m IH]; simpl; [discriminate|].
  destruct (Z.eqb_spec k' k); intros H; [left; congruence | right; auto].
Qed.

Lemma in_keys_get k m : In k (keys m) -> exists v, get k m = Some v.
Proof.
  induction m as [|[k' v'] m IH]; simpl; [tauto|].
  intros H. destruct (Z.eqb_spec k' k); [eauto|].
  destruct H; [contradiction | auto].
Qed.

Lemma keys_set_in k v m : In k (keys m) -> keys (set k v m) = keys m.
Proof.
  induction m as [|[k' v'] m IH]; simpl; [tauto|].
  intros H. destruct (Z.eqb_spec k' k); simpl; [congruence|].
  f_equal. apply IH. destruct H; [contradiction | assumption].
Qed.

Lemma keys_set_not_in k v m : ~ In k (keys m) -> keys (set k v m) = keys m ++ [k].
Proof.
  induction m as [|[k' v'] m IH]; simpl; [reflexivity|].
  intros H. destruct (Z.eqb_spec k' k); simpl; [tauto|].
  f_equal. apply IH. tauto.
Qed.

Lemma set_Forall (P : Z * V -> Prop) k v m :
  Forall P m -> P (k, v) -> Forall P (set k v m).
Proof.
  induction 1 as [|[k' v'] m Hx Hm IH]; simpl; intros Hk; [auto|].
  destruct (Z.eqb_spec k' k); auto.
Qed.

Lemma get_set_same k v m : get k (set k v m) = Some v.
Proof.
  induction m as [|[k' v'] m IH]; simpl.
  - now rewrite Z.eqb_refl.
  - destruct (Z.eqb_spec k' k) as [E|E]; simpl.
    + now rewrite Z.eqb_refl.
    + destruct (Z.eqb_spec k' k); [contradiction | assumption].
Qed.

Lemma keys_modify k (f : V -> V) m : keys (modify k f m) = keys m.
Proof.
  unfold keys, modify. rewrite map_map. apply map_ext.
  intros [k' v']; simpl. now destruct (k' =? k).
Qed.

Lemma modify_Forall (P : Z * V -> Prop) k (f : V -> V) m :
  (forall j v, P (j, v) -> P (j, f v)) -> Forall P m -> Forall P (modify k f m).
Proof.
  intros Hf. unfold modify. induction 1 as [|[k' v'] m Hx Hm IH]; simpl; [auto|].
  constructor; [|assumption]. destruct (k' =? k); auto.
Qed.

Lemma delete_Forall (P : Z * V -> Prop) k m :
  Forall P m -> Forall P (delete k m).
Proof.
  induction 1 as [|[k' v'] m Hx Hm IH]; simpl; [auto|].
  destruct (k' =? k); auto.
Qed.

Lemma in_keys_delete k m a : In a (keys (delete k m)) -> In a (keys m).
Proof.
  induction m as [|[k' v'] m IH]; simpl; [tauto|].
  destruct (k' =? k); simpl; tauto.
Qed.

Lemma in_keys_delete_other k m a :
  In a (keys m) -> a <> k -> In a (keys (delete k m)).
Proof.
  induction m as [|[k' v'] m IH]; simpl; [tauto|].
  intros [E|H] Hne.
  - subst. destruct (Z.eqb_spec a k); [contradiction | now left].
  - destruct (k' =? k); simpl; auto.
Qed.

Lemma keys_delete_Forall (P : Z -> Prop) k m :
  Forall P (keys m) -> Forall P (keys (delete k m)).
Proof.
  rewrite !Forall_forall. intros H a Ha. eauto using in_keys_delete.
Qed.

Lemma keys_delete_sorted k m :
  StronglySorted Z.lt (keys m) -> StronglySorted Z.lt (keys (delete k m)).
Proof.
  induction m as [|[k' v'] m IH]; simpl; [auto|].
  intros H. apply StronglySorted_inv in H. destruct H as [Hs Hf].
  destruct (k' =? k); simpl; [assumption|].
  constructor; [auto|]. now apply keys_delete_Forall.
Qed.

Lemma not_in_keys_delete k m :
  StronglySorted Z.lt (keys m) -> ~ In k (keys (delete k m)).
Proof.
  induction m as [|[k' v'] m IH]; simpl; [tauto|].
  intros H. apply StronglySorted_inv in H. destruct H as [Hs Hf].
  destruct (Z.eqb_spec k' k) as [E|E]; simpl.
  - subst. intros Hin. rewrite Forall_forall in Hf.
    specialize (Hf _ Hin). lia.
  - intros [E'|Hin]; [contradiction | now apply IH].
Qed.

End Facts.

(** Sorted lists of keys. *)

Lemma sorted_snoc (l : list Z) (n : Z) :
  StronglySorted Z.lt l -> Forall (fun k => k < n) l ->
  StronglySorted Z.lt (l ++ [n]).
Proof.
  induction 1 as [|a l Hs IH Ha]; simpl; intros Hf.
  - repeat constructor.
  - apply Forall_cons_iff in Hf. destruct Hf as [Han Hf].
    constructor; [auto|].
    apply Forall_app. split; [assumption | repeat constructor; assumption].
Qed.

Lemma last_of_in (l : list Z) :
  l <> [] -> exists m, Main.last_of l = Some m /\ In m l.
Proof.
  unfold Main.last_of. intros Hne.
  destruct (nth_error l (List.length l - 1)) as [m|] eqn:E.
  - exists m. split; [reflexivity|]. eapply nth_error_In; eauto.
  - apply nth_error_None in E. destruct l; [contradiction|]. simpl in E. lia.
Qed.

Lemma last_of_snoc (l : list Z) (n : Z) : Main.last_of (l ++ [n]) = Some n.
Proof.
  unfold Main.last_of. rewrite length_app. simpl.
  rewrite nth_error_app2 by lia.
  replace (List.length l + 1 - 1 - List.length l)%nat with 0%nat by lia.
  reflexivity.
Qed.

Lemma sorted_last_greatest (l : list Z) (m : Z) :
  StronglySorted Z.lt l -> Main.last_of l = Some m ->
  forall k, In k l -> k <= m.
Proof.
  intros Hs Hl.
  destruct (exists_last (l := l)) as [l' [a E]].
  { intros ->. discriminate. }
  subst l. rewrite last_of_snoc in Hl. injection Hl as ->.
  intros k Hk. apply in_app_or in Hk. destruct Hk as [Hk|[->|[]]]; [|lia].
  clear -Hs Hk. induction l' as [|b l' IH]; [contradiction|].
  simpl in Hs. apply StronglySorted_inv in Hs. destruct Hs as [Hs Hf].
  destruct Hk as [->|Hk]; [|auto].
  rewrite Forall_forall in Hf. specialize (Hf m). 
  assert (In m (l' ++ [m])) by (apply in_or_app; right; now left).
  specialize (Hf H). lia.
Qed.

Lemma sorted_NoDup (l : list Z) : StronglySorted Z.lt l -> NoDup l.
Proof.
  induction 1 as [|a l Hs IH Ha]; constructor; [|assumption].
  intros Hin. rewrite Forall_forall in Ha. specialize (Ha _ Hin). lia.
Qed.

End JsMapFacts.

(* ------------------------------------------------------------------ *)
(** ** The functions of [index.ts], one by one *)

Module MainFacts.

Import Js.
Import Electron.
Import Main.
Import Invariant.
Import JsMapFacts.

Lemma keys_show_or_hide i r (m : JsMap.t Tab) :
  JsMap.keys (map (show_or_hide i r) m) = JsMap.keys m.
Proof.
  unfold JsMap.keys. rewrite map_map. apply map_ext.
  intros [k t]. unfold show_or_hide. simpl. now destruct (k =? i).
Qed.

Lemma ids_show_or_hide i r (m : JsMap.t Tab) :
  Forall id_in_place m -> Forall id_in_place (map (show_or_hide i r) m).
Proof.
  induction 1 as [|[k t] m Hx Hm IH]; simpl; constructor; auto.
  unfold show_or_hide, id_in_place in *. simpl in *. now destruct (k =? i).
Qed.

Lemma ids_modify_view k f (m : JsMap.t Tab) :
  Forall id_in_place m -> Forall id_in_place (JsMap.modify k (with_view f) m).
Proof. apply modify_Forall. intros j v H. exact H. Qed.

Lemma ids_modify_url k u (m : JsMap.t Tab) :
  Forall id_in_place m -> Forall id_in_place (JsMap.modify k (with_url u) m).
Proof. apply modify_Forall. intros j v H. exact H. Qed.

Lemma ids_modify_title k u (m : JsMap.t Tab) :
  Forall id_in_place m -> Forall id_in_place (JsMap.modify k (with_title u) m).
Proof. apply modify_Forall. intros j v H. exact H. Qed.

(** An operation that keeps the keys, the counter and the active tab
    keeps the invariant. *)
Lemma Inv_frame s s' :
  Inv s ->
  JsMap.keys (tabs s') = JsMap.keys (tabs s) ->
  Forall id_in_place (tabs s') ->
  nextTabId s' = nextTabId s ->
  (forall a, activeTabId s' = Some a ->
             In a (JsMap.keys (tabs s)) /\ mainWindow s' <> None) ->
  Inv s'.
Proof.
  intros [Hs Hi Hn Hk Ha] Ek Hi' En Ha'.
  constructor; rewrite ?Ek, ?En; auto.
Qed.

(** *** [switchToTab] *)

Lemma switchToTab_unknown i s :
  JsMap.get i (tabs s) = None -> switchToTab i s = s.
Proof.
  intros H. unfold switchToTab. rewrite H. now destruct (mainWindow s).
Qed.

Lemma switchToTab_no_window i s :
  mainWindow s = None -> switchToTab i s = s.
Proof. intros H. unfold switchToTab. now rewrite H. Qed.

Lemma switchToTab_keys i s :
  JsMap.keys (tabs (switchToTab i s)) = JsMap.keys (tabs s).
Proof.
  unfold switchToTab. destruct (mainWindow s); [|reflexivity].
  destruct (JsMap.get i (tabs s)); [|reflexivity].
  simpl. apply keys_show_or_hide.
Qed.

Lemma switchToTab_ids i s :
  Forall id_in_place (tabs s) -> Forall id_in_place (tabs (switchToTab i s)).
Proof.
  intros H. unfold switchToTab. destruct (mainWindow s); [|assumption].
  destruct (JsMap.get i (tabs s)); [|assumption].
  simpl. now apply ids_show_or_hide.
Qed.

Lemma switchToTab_next i s : nextTabId (switchToTab i s) = nextTabId s.
Proof.
  unfold switchToTab. destruct (mainWindow s); [|reflexivity].
  now destruct (JsMap.get i (tabs s)).
Qed.

Lemma switchToTab_window i s :
  mainWindow s <> None -> mainWindow (switchToTab i s) <> None.
Proof.
  unfold switchToTab. destruct (mainWindow s) eqn:Ew; [|tauto].
  destruct (JsMap.get i (tabs s)); simpl; congruence.
Qed.

(** With a window, switching to a tab of the map makes it the active
    one. *)
Lemma switchToTab_known i s :
  mainWindow s <> None -> In i (JsMap.keys (tabs s)) ->
  activeTabId (switchToTab i s) = Some i.
Proof.
  intros Hw Hin. unfold switchToTab.
  destruct (mainWindow s); [|contradiction].
  destruct (in_keys_get _ _ Hin) as [t ->]. reflexivity.
Qed.

Lemma switchToTab_active i s a :
  activeTabId (switchToTab i s) = Some a ->
  (a = i /\ In i (JsMap.keys (tabs s)) /\ mainWindow s <> None)
  \/ activeTabId s = Some a.
Proof.
  unfold switchToTab. destruct (mainWindow s) eqn:Ew; [|auto].
  destruct (JsMap.get i (tabs s)) eqn:Eg; [|auto].
  simpl. intros [= <-]. left. repeat split; [|congruence].
  eauto using get_in_keys.
Qed.

Lemma switchToTab_Inv i s : Inv s -> Inv (switchToTab i s).
Proof.
  intros H. apply (Inv_frame s); auto using switchToTab_keys, switchToTab_next.
  - apply switchToTab_ids, H.
  - intros a Ha. destruct (switchToTab_active _ _ _ Ha) as [(-> & Hin & Hw)|Hs].
    + split; [assumption | now apply switchToTab_window].
    + destruct (inv_active _ H _ Hs) as [Hin Hw].
      split; [assumption | now apply switchToTab_window].
Qed.

(** *** [send_opt] and the mutations in place *)

Lemma send_opt_tabs m s : tabs (send_opt m s) = tabs s.
Proof. unfold send_opt. now destruct (mainWindow s). Qed.

Lemma send_opt_active m s : activeTabId (send_opt m s) = activeTabId s.
Proof. unfold send_opt. now destruct (mainWindow s). Qed.

Lemma send_opt_next m s : nextTabId (send_opt m s) = nextTabId s.
Proof. unfold send_opt. now destruct (mainWindow s). Qed.

Lemma send_opt_window m s :
  mainWindow s <> None -> mainWindow (send_opt m s) <> None.
Proof. unfold send_opt. destruct (mainWindow s); simpl; congruence. Qed.

Lemma send_opt_Inv m s : Inv s -> Inv (send_opt m s).
Proof.
  intros H. apply (Inv_frame s); rewrite ?send_opt_tabs, ?send_opt_next; auto.
  - apply H.
  - rewrite send_opt_active. intros a Ha.
    destruct (inv_active _ H _ Ha). auto using send_opt_window.
Qed.

Lemma on_tab_Inv a f s : Inv s -> Inv (on_tab a f s).
Proof.
  intros H. apply (Inv_frame s); simpl; auto using keys_modify.
  - apply ids_modify_view, H.
  - apply H.
Qed.

(** *** [createTab] *)

Lemma incr_bounds n : 1 <= n <= two53 -> 1 <= incr n <= two53 /\ n <= incr n.
Proof. unfold incr. destruct (Z.ltb_spec n two53); lia. Qed.

Lemma handed_out_incr n k :
  1 <= n <= two53 -> handed_out n k -> handed_out (incr n) k.
Proof.
  unfold handed_out, incr. intros Hn [H|[-> ->]].
  - destruct (Z.ltb_spec n two53); lia.
  - rewrite Z.ltb_irrefl. lia.
Qed.

Lemma handed_out_new n : 1 <= n <= two53 -> handed_out (incr n) n.
Proof.
  unfold handed_out, incr. intros Hn.
  destruct (Z.ltb_spec n two53); lia.
Qed.

(** The state of [createTab] after [tabs.set(id, tab)]. *)
Lemma registered_Inv s (t : Tab) :
  Inv s -> id t = nextTabId s ->
  Inv {| mainWindow := mainWindow s;
         tabs := JsMap.set (nextTabId s) t (tabs s);
         activeTabId := activeTabId s;
         nextTabId := incr (nextTabId s);
         views := S (views s) |}.
Proof.
  intros [Hs Hi Hn Hk Ha] Ht.
  assert (Hkeys :
    JsMap.keys (JsMap.set (nextTabId s) t (tabs s)) = JsMap.keys (tabs s)
    \/ (JsMap.keys (JsMap.set (nextTabId s) t (tabs s))
          = JsMap.keys (tabs s) ++ [nextTabId s]
        /\ Forall (fun k => k < nextTabId s) (JsMap.keys (tabs s)))).
  { destruct (in_dec Z.eq_dec (nextTabId s) (JsMap.keys (tabs s))) as [Hin|Hout].
    - left. now apply keys_set_in.
    - right. split; [now apply keys_set_not_in|].
      rewrite Forall_forall in *. intros k Hin.
      destruct (Hk _ Hin) as [H|[E1 E2]]; [assumption|].
      exfalso. apply Hout. congruence. }
  constructor; simpl.
  - destruct Hkeys as [->|[-> Hlt]]; [assumption | now apply sorted_snoc].
  - apply set_Forall; [assumption | exact Ht].
  - now apply incr_bounds.
  - destruct Hkeys as [->|[-> Hlt]].
    + eapply Forall_impl; [|exact Hk]. intros k. now apply handed_out_incr.
    + apply Forall_app. split.
      * eapply Forall_impl; [|exact Hk]. intros k. now apply handed_out_incr.
      * constructor; [now apply handed_out_new | constructor].
  - intros a Ea. destruct (Ha _ Ea) as [Hin Hw]. split; [|assumption].
    destruct Hkeys as [->|[-> Hlt]]; [assumption | apply in_or_app; now left].
Qed.

Lemma createTab_Inv url s : Inv s -> Inv (fst (createTab url s)).
Proof.
  intros H. unfold createTab. cbv zeta. simpl fst.
  apply send_opt_Inv, switchToTab_Inv.
  destruct (truthy url); [apply on_tab_Inv|]; now apply registered_Inv.
Qed.

Lemma createTab_next url s :
  nextTabId (fst (createTab url s)) = incr (nextTabId s).
Proof.
  unfold createTab. cbv zeta. simpl fst.
  rewrite send_opt_next, switchToTab_next. now destruct (truthy url).
Qed.

(** The tab [createTab] returns carries the id taken from the
    counter, and the url it was given. *)
Lemma createTab_id url s :
  Inv s -> id (snd (createTab url s)) = nextTabId s.
Proof.
  intros H. pose proof (createTab_Inv url s H) as H'.
  revert H'. unfold createTab. cbv zeta. simpl fst. simpl snd.
  intros H'.
  match goal with |- id (match ?g with _ => _ end) = _ => destruct g as [t|] eqn:E end;
    [|reflexivity].
  apply get_in in E. pose proof (inv_ids _ H') as Hi.
  rewrite Forall_forall in Hi. exact (Hi _ E).
Qed.

(** With a window, the new tab is the active one. *)
Lemma createTab_active url s :
  mainWindow s <> None ->
  activeTabId (fst (createTab url s)) = Some (nextTabId s).
Proof.
  intros Hw. unfold createTab. cbv zeta. simpl fst.
  rewrite send_opt_active. apply switchToTab_known.
  - now destruct (truthy url).
  - destruct (truthy url); simpl; rewrite ?keys_modify;
      eapply get_in_keys, get_set_same.
Qed.

Lemma createTab_no_window url s :
  mainWindow s = None ->
  activeTabId (fst (createTab url s)) = activeTabId s.
Proof.
  intros Hw. unfold createTab. cbv zeta. simpl fst.
  rewrite send_opt_active, switchToTab_no_window; now destruct (truthy url).
Qed.

(** *** [closeTab] *)

Lemma closeTab_unknown i s :
  JsMap.get i (tabs s) = None -> closeTab i s = s.
Proof. intros H. unfold closeTab. now rewrite H. Qed.

Lemma closeTab_no_window i s : mainWindow s = None -> closeTab i s = s.
Proof.
  intros H. unfold closeTab. rewrite H. now destruct (JsMap.get i (tabs s)).
Qed.

Lemma remove_tab_keys i t w s :
  JsMap.keys (tabs (remove_tab i t w s))
  = JsMap.keys (JsMap.delete i
      (JsMap.modify i (with_view (on_webContents (request close))) (tabs s))).
Proof. reflexivity. Qed.

Lemma in_keys_remove_tab_other i t w s a :
  In a (JsMap.keys (tabs s)) -> a <> i ->
  In a (JsMap.keys (tabs (remove_tab i t w s))).
Proof.
  intros H Hne. rewrite remove_tab_keys.
  apply in_keys_delete_other; [now rewrite keys_modify | assumption].
Qed.

(** Once the tab is out of the map the invariant holds again, but for
    an active id that named it. *)
Lemma remove_tab_Inv i t w s a :
  Inv s ->
  (a = None \/ (a = activeTabId s /\ a <> Some i)) ->
  Inv (set_activeTabId a (remove_tab i t w s)).
Proof.
  intros H Ha. constructor.
  - change (tabs (set_activeTabId a (remove_tab i t w s)))
      with (tabs (remove_tab i t w s)).
    rewrite remove_tab_keys. apply keys_delete_sorted.
    rewrite keys_modify. apply H.
  - simpl. apply delete_Forall, ids_modify_view, H.
  - simpl. apply H.
  - change (tabs (set_activeTabId a (remove_tab i t w s)))
      with (tabs (remove_tab i t w s)).
    rewrite remove_tab_keys. apply keys_delete_Forall.
    rewrite keys_modify. apply H.
  - intros b Eb. simpl in Eb. split; [|simpl; congruence].
    destruct Ha as [->|[-> Hne]]; [discriminate|].
    destruct (inv_active _ H _ Eb) as [Hin _].
    apply in_keys_remove_tab_other; [assumption | congruence].
Qed.

Lemma switchToTab_forgets_active i a s :
  mainWindow s <> None -> In i (JsMap.keys (tabs s)) ->
  switchToTab i s = switchToTab i (set_activeTabId a s).
Proof.
  intros Hw Hin. unfold switchToTab. simpl.
  destruct (mainWindow s); [|contradiction].
  destruct (in_keys_get _ _ Hin) as [t ->]. reflexivity.
Qed.

Lemma fall_back_Inv i t w s :
  Inv s -> Inv (fall_back i (remove_tab i t w s)).
Proof.
  intros H. unfold fall_back.
  change (activeTabId (remove_tab i t w s)) with (activeTabId s).
  pose proof (remove_tab_Inv i t w s None H (or_introl eq_refl)) as H0.
  assert (Hsame : forall a, activeTabId s = a -> a <> Some i ->
                            Inv (remove_tab i t w s)).
  { intros a Ea Hne.
    pose proof (remove_tab_Inv i t w s a H (or_intror (conj (eq_sym Ea) Hne))) as H1.
    now rewrite <- Ea in H1. }
  destruct (activeTabId s) as [a|] eqn:Ea.
  - destruct (Z.eqb_spec a i) as [->|Hne].
    + destruct (Z.ltb_spec 0
        (Z.of_nat (List.length (JsMap.keys (tabs (remove_tab i t w s))))))
        as [Hlen|Hlen]; [|exact H0].
      destruct (last_of_in (JsMap.keys (tabs (remove_tab i t w s))))
        as [k [-> Hk]].
      { intros E. rewrite E in Hlen. simpl in Hlen. lia. }
      rewrite (switchToTab_forgets_active k None);
        [now apply switchToTab_Inv | simpl; congruence | assumption].
    + apply (Hsame (Some a)); congruence.
  - apply (Hsame None); congruence.
Qed.

Lemma closeTab_Inv i s : Inv s -> Inv (closeTab i s).
Proof.
  intros H. unfold closeTab.
  destruct (JsMap.get i (tabs s)) as [t|]; [|assumption].
  destruct (mainWindow s) as [w|]; [|assumption].
  now apply send_opt_Inv, fall_back_Inv.
Qed.

(** *** The handlers and the events *)

Arguments createTab : simpl never.
Arguments switchToTab : simpl never.
Arguments closeTab : simpl never.
Arguments navigate : simpl never.
Arguments execute_action : simpl never.
Arguments did_navigate : simpl never.
Arguments page_title_updated : simpl never.

Lemma navigate_Inv url s : Inv s -> Inv (fst (navigate url s)).
Proof.
  intros H. unfold navigate. destruct (activeTabId s) as [a|].
  - destruct (JsMap.get a (tabs s)); simpl; auto using on_tab_Inv.
  - simpl. now apply createTab_Inv.
Qed.

Lemma navigate_next url s :
  nextTabId (fst (navigate url s)) = nextTabId s
  \/ nextTabId (fst (navigate url s)) = incr (nextTabId s).
Proof.
  unfold navigate. destruct (activeTabId s) as [a|].
  - left. now destruct (JsMap.get a (tabs s)).
  - right. simpl. apply createTab_next.
Qed.

Ltac split_cases :=
  repeat match goal with
         | |- context [if ?b then _ else _] => destruct b
         | |- context [match ?e with _ => _ end] => destruct e
         end.

Lemma execute_action_Inv a page s : Inv s -> Inv (fst (execute_action a page s)).
Proof.
  intros H. unfold execute_action.
  destruct (activeTabId s) as [act|]; [|assumption].
  destruct (JsMap.get act (tabs s)); [|assumption].
  split_cases; simpl; auto using on_tab_Inv.
Qed.

Lemma execute_action_next a page s :
  nextTabId (fst (execute_action a page s)) = nextTabId s.
Proof.
  unfold execute_action.
  destruct (activeTabId s) as [act|]; [|reflexivity].
  destruct (JsMap.get act (tabs s)); [|reflexivity].
  split_cases; reflexivity.
Qed.

Lemma did_navigate_Inv i u s : Inv s -> Inv (did_navigate i u s).
Proof.
  intros H. unfold did_navigate. destruct (JsMap.get i (tabs s)); [|assumption].
  apply send_opt_Inv. apply (Inv_frame s); simpl; auto using keys_modify.
  - apply ids_modify_url, H.
  - apply H.
Qed.

Lemma page_title_updated_Inv i u s : Inv s -> Inv (page_title_updated i u s).
Proof.
  intros H. unfold page_title_updated.
  destruct (JsMap.get i (tabs s)); [|assumption].
  apply send_opt_Inv. apply (Inv_frame s); simpl; auto using keys_modify.
  - apply ids_modify_title, H.
  - apply H.
Qed.

(** *** Runs *)

Lemma initial_Inv w : Inv (initial w).
Proof.
  constructor; simpl.
  - constructor.
  - constructor.
  - unfold two53. lia.
  - constructor.
  - discriminate.
Qed.

Lemma fst_step op s :
  fst (step op s)
  = match op with
    | CreateTab u => fst (createTab u s)
    | SwitchTab i => switchToTab i s
    | CloseTab i => closeTab i s
    | Navigate u => fst (navigate u s)
    | ExecuteAction a page => fst (execute_action a page s)
    | DidNavigate i u => did_navigate i u s
    | PageTitleUpdated i ti => page_title_updated i ti s
    end.
Proof.
  destruct op as [u|i|i|u|a page|i u|i u]; unfold step; try reflexivity.
  - now destruct (navigate u s).
  - now destruct (execute_action a page s).
Qed.

Lemma step_Inv op s : Inv s -> Inv (fst (step op s)).
Proof.
  intros H. rewrite fst_step.
  destruct op;
    auto using createTab_Inv, switchToTab_Inv, closeTab_Inv, navigate_Inv,
      execute_action_Inv, did_navigate_Inv, page_title_updated_Inv.
Qed.

Lemma run_cons op ops s :
  run (op :: ops) s
  = (fst (run ops (fst (step op s))),
     snd (step op s) :: snd (run ops (fst (step op s)))).
Proof.
  simpl. destruct (step op s) as [s1 r]. simpl.
  now destruct (run ops s1).
Qed.

Lemma run_Inv ops : forall s, Inv s -> Inv (fst (run ops s)).
Proof.
  induction ops as [|op ops IH]; intros s H; [exact H|].
  rewrite run_cons. simpl. apply IH. now apply step_Inv.
Qed.

(** Every state a run reaches from the start satisfies the invariant. *)
Lemma exec_Inv w ops : Inv (exec ops (initial w)).
Proof. apply run_Inv, initial_Inv. Qed.

(** The counter moves by at most one step, and an answered
    ['create-tab'] names the value it had. *)
Lemma step_next op s :
  Inv s ->
  (nextTabId (fst (step op s)) = nextTabId s
   \/ nextTabId (fst (step op s)) = incr (nextTabId s))
  /\ (forall i u, snd (step op s) = Some (created i u) ->
        i = nextTabId s /\ nextTabId (fst (step op s)) = incr (nextTabId s)).
Proof.
  intros H. destruct op as [u|k|k|u|a page|k u|k u]; unfold step;
    unfold switch_tab, close_tab; cbn [fst snd].
  - unfold create_tab.
    pose proof (createTab_next u s) as Hn.
    pose proof (createTab_id u s H) as Hi.
    destruct (createTab u s) as [s' t]. simpl in *.
    split; [now right|]. intros i v [= <- _]. auto.
  - rewrite switchToTab_next. split; [now left | discriminate].
  - split; [|discriminate]. left. unfold closeTab.
    destruct (JsMap.get k (tabs s)) as [t|]; [|reflexivity].
    destruct (mainWindow s) as [w|]; [|reflexivity].
    rewrite send_opt_next. unfold fall_back.
    split_cases; rewrite ?switchToTab_next; reflexivity.
  - pose proof (navigate_next u s) as Hn.
    assert (Hr : snd (navigate u s) = result ok).
    { unfold navigate. destruct (activeTabId s) as [a|]; [|reflexivity].
      now destruct (JsMap.get a (tabs s)). }
    destruct (navigate u s) as [s' r]. simpl in *. subst r.
    split; [assumption | discriminate].
  - pose proof (execute_action_next a page s) as Hn.
    assert (Hr : forall i v, snd (execute_action a page s) <> created i v).
    { intros i v. unfold execute_action.
      destruct (activeTabId s) as [act|]; [|discriminate].
      destruct (JsMap.get act (tabs s)); [|discriminate].
      split_cases; discriminate. }
    destruct (execute_action a page s) as [s' r]. simpl in *.
    split; [now left|]. intros i v [= ->]. now destruct (Hr i v).
  - split; [|discriminate]. left. unfold did_navigate.
    destruct (JsMap.get k (tabs s)); [|reflexivity]. now rewrite send_opt_next.
  - split; [|discriminate]. left. unfold page_title_updated.
    destruct (JsMap.get k (tabs s)); [|reflexivity]. now rewrite send_opt_next.
Qed.

(** As long as the counter stays below [2^53], the ids a run answers
    its ['create-tab'] requests with start at the counter and grow. *)
Lemma run_created_ids ops : forall s,
  Inv s ->
  nextTabId s + Z.of_nat (List.length ops) <= two53 ->
  nextTabId s <= nextTabId (fst (run ops s))
                <= nextTabId s + Z.of_nat (List.length ops)
  /\ StronglySorted Z.lt (created_ids (snd (run ops s)))
  /\ Forall (fun i => nextTabId s <= i) (created_ids (snd (run ops s))).
Proof.
  induction ops as [|op ops IH]; intros s H Hlen.
  - simpl. repeat split; try constructor; lia.
  - rewrite run_cons. cbn [fst snd].
    change (List.length (op :: ops)) with (S (List.length ops)) in *.
    destruct (step_next op s H) as [Hn Hc].
    pose proof (step_Inv op s H) as H1.
    assert (Hlt : nextTabId s < two53) by lia.
    assert (Ei : incr (nextTabId s) = nextTabId s + 1).
    { unfold incr. destruct (Z.ltb_spec (nextTabId s) two53); lia. }
    rewrite Ei in *.
    destruct (IH (fst (step op s)) H1) as (Hb & Hs & Hf); [lia|].
    split; [lia|].
    destruct (snd (step op s)) as [[i u|r|]|] eqn:Er; cbn [created_ids];
      try (split; [assumption|]; eapply Forall_impl; [|exact Hf];
           cbv beta; intros; lia).
    destruct (Hc i u eq_refl) as [-> En].
    split.
    + constructor; [assumption|]. eapply Forall_impl; [|exact Hf].
      cbv beta. intros; lia.
    + constructor; [lia|]. eapply Forall_impl; [|exact Hf].
      cbv beta. intros; lia.
Qed.

(** *** ['get-tabs'] *)

Lemma get_tabs_ids s :
  Forall id_in_place (tabs s) ->
  map TabInfo.id (get_tabs s) = JsMap.keys (tabs s).
Proof.
  unfold get_tabs, JsMap.values, JsMap.keys. rewrite !map_map. cbn [TabInfo.id].
  induction 1 as [|e m He Hm IH]; simpl; [reflexivity|].
  now rewrite He, IH.
Qed.

Lemma get_tabs_active s e :
  In e (get_tabs s) ->
  TabInfo.active e = true <-> activeTabId s = Some (TabInfo.id e).
Proof.
  unfold get_tabs. rewrite in_map_iff. intros (t & <- & _). simpl.
  unfold is_active. destruct (activeTabId s) as [a|].
  - rewrite Z.eqb_eq. split; congruence.
  - split; discriminate.
Qed.

Lemma filter_none {A : Type} (f : A -> bool) (l : list A) :
  (forall x, In x l -> f x = false) -> filter f l = [].
Proof.
  induction l as [|x l IH]; simpl; intros H; [reflexivity|].
  rewrite (H x (or_introl eq_refl)). apply IH. auto.
Qed.

(** Entries with distinct ids, the marked ones all carrying the id [a]:
    at most one is marked. *)
Lemma marked_at_most_once (l : list TabInfo) (a : Z) :
  NoDup (map TabInfo.id l) ->
  (forall e, In e l -> TabInfo.active e = true -> TabInfo.id e = a) ->
  (List.length (filter TabInfo.active l) <= 1)%nat.
Proof.
  induction l as [|e l IH]; simpl; intros Hnd Ha; [lia|].
  apply NoDup_cons_iff in Hnd. destruct Hnd as [Hout Hnd].
  destruct (TabInfo.active e) eqn:Ee.
  - assert (Hnone : filter TabInfo.active l = []).
    { apply filter_none.
      intros e' Hin.
      destruct (TabInfo.active e') eqn:Ee'; [|reflexivity].
      exfalso. apply Hout.
      rewrite (Ha e (or_introl eq_refl) Ee), <- (Ha e' (or_intror Hin) Ee').
      now apply in_map. }
    rewrite Hnone. simpl. lia.
  - apply IH; auto.
Qed.

Lemma active_entries_at_most_one s :
  Inv s -> (List.length (active_entries s) <= 1)%nat.
Proof.
  intros H. unfold active_entries.
  apply (marked_at_most_once _
           (match activeTabId s with Some a => a | None => 0 end)).
  - rewrite get_tabs_ids by apply H. apply sorted_NoDup, H.
  - intros e Hin He. apply (get_tabs_active s e Hin) in He. now rewrite He.
Qed.

Lemma no_active_entries s :
  activeTabId s = None -> active_entries s = [].
Proof.
  intros Ha. unfold active_entries.
  apply filter_none.
  intros e Hin. destruct (TabInfo.active e) eqn:Ee; [|reflexivity].
  apply (get_tabs_active s e Hin) in Ee. congruence.
Qed.

(** *** What [closeTab] leaves *)

Lemma keys_delete_remove {V : Type} k (m : JsMap.t V) :
  StronglySorted Z.lt (JsMap.keys m) ->
  JsMap.keys (JsMap.delete k m) = List.remove Z.eq_dec k (JsMap.keys m).
Proof.
  induction m as [|[k' v'] m IH]; simpl; [reflexivity|].
  intros H. apply StronglySorted_inv in H. destruct H as [Hs Hf].
  destruct (Z.eqb_spec k' k) as [E|E]; destruct (Z.eq_dec k k') as [E'|E'];
    try congruence.
  - subst k'. symmetry. apply notin_remove. intros Hin.
    rewrite Forall_forall in Hf. specialize (Hf _ Hin). lia.
  - simpl. f_equal. now apply IH.
Qed.

Lemma fall_back_tabs_keys i s :
  JsMap.keys (tabs (fall_back i s)) = JsMap.keys (tabs s).
Proof.
  unfold fall_back. split_cases; rewrite ?switchToTab_keys; reflexivity.
Qed.

Lemma closeTab_keys i s :
  Inv s ->
  In i (JsMap.keys (tabs s)) -> mainWindow s <> None ->
  JsMap.keys (tabs (closeTab i s)) = List.remove Z.eq_dec i (JsMap.keys (tabs s)).
Proof.
  intros H Hin Hw. unfold closeTab.
  destruct (in_keys_get _ _ Hin) as [t ->].
  destruct (mainWindow s) as [w|]; [|contradiction].
  rewrite send_opt_tabs, fall_back_tabs_keys, remove_tab_keys.
  rewrite keys_delete_remove; rewrite keys_modify; [reflexivity | apply H].
Qed.

(** Closing the active tab: the last key left becomes the active id,
    and it is the greatest; with no key left no tab is active. *)
Lemma closeTab_active_tab a s :
  Inv s -> activeTabId s = Some a ->
  (forall m, last_of (JsMap.keys (tabs (closeTab a s))) = Some m ->
             activeTabId (closeTab a s) = Some m)
  /\ (JsMap.keys (tabs (closeTab a s)) = [] -> activeTabId (closeTab a s) = None).
Proof.
  intros H Ha. destruct (inv_active _ H _ Ha) as [Hin Hw].
  unfold closeTab.
  destruct (in_keys_get _ _ Hin) as [t ->].
  destruct (mainWindow s) as [w|] eqn:Ew; [|contradiction].
  rewrite send_opt_tabs, send_opt_active, fall_back_tabs_keys.
  unfold fall_back.
  change (activeTabId (remove_tab a t w s)) with (activeTabId s).
  rewrite Ha, Z.eqb_refl.
  set (s1 := remove_tab a t w s).
  destruct (JsMap.keys (tabs s1)) as [|k0 rest] eqn:Ek.
  - simpl. split; [discriminate | reflexivity].
  - split; [|discriminate].
    intros m Hm.
    replace (0 <? Z.of_nat (List.length (k0 :: rest))) with true
      by (symmetry; apply Z.ltb_lt; simpl List.length; lia).
    rewrite Hm. apply switchToTab_known; [discriminate|].
    rewrite Ek. unfold last_of in Hm. eapply nth_error_In; eauto.
Qed.

End MainFacts.

(* ------------------------------------------------------------------ *)
(** ** The tab manager *)

Module TabManager.

Import Js.
Import Electron.
Import Main.
Import Invariant.
Import JsMapFacts.
Import MainFacts.
Import Scenario.

Lemma closeTab_keeps_none i s :
  activeTabId s = None -> activeTabId (closeTab i s) = None.
Proof.
  intros Ha. unfold closeTab.
  destruct (JsMap.get i (tabs s)) as [t|]; [|assumption].
  destruct (mainWindow s) as [w|]; [|assumption].
  rewrite send_opt_active. unfold fall_back.
  change (activeTabId (remove_tab i t w s)) with (activeTabId s).
  now rewrite Ha.
Qed.

(** C1 (single active tab).  Whatever requests and page events a window
    has served since no tab existed, ['get-tabs'] marks at most one
    entry active; an entry is marked exactly when [activeTabId] is its
    id; and when one tab is left, closing it leaves no entry marked and
    [activeTabId] null. *)
Theorem single_active (w : option BrowserWindow) (ops : list Op) :
  (List.length (active_entries (exec ops (initial w))) <= 1)%nat
  /\ (forall e, In e (get_tabs (exec ops (initial w))) ->
        TabInfo.active e = true
        <-> activeTabId (exec ops (initial w)) = Some (TabInfo.id e))
  /\ (forall i, JsMap.keys (tabs (exec ops (initial w))) = [i] ->
        active_entries (closeTab i (exec ops (initial w))) = []
        /\ activeTabId (closeTab i (exec ops (initial w))) = None).
Proof.
  pose proof (exec_Inv w ops) as H.
  set (s := exec ops (initial w)) in *.
  split; [now apply active_entries_at_most_one|].
  split; [intros e; apply get_tabs_active|].
  intros i Ek.
  assert (Hnone : activeTabId (closeTab i s) = None).
  { destruct (activeTabId s) as [a|] eqn:Ea.
    - destruct (inv_active _ H _ Ea) as [Hin Hw].
      rewrite Ek in Hin. destruct Hin as [<-|[]].
      apply (closeTab_active_tab i s H Ea).
      rewrite closeTab_keys; [|assumption|rewrite Ek; now left|assumption].
      rewrite Ek. simpl. destruct (Z.eq_dec i i); [reflexivity|contradiction].
    - now apply closeTab_keeps_none. }
  split; [now apply no_active_entries | assumption].
Qed.

Lemma single_active_witness :
  JsMap.keys (tabs (exec [CreateTab []] (initial (Some window)))) = [1]
  /\ active_entries (closeTab 1 (exec [CreateTab []] (initial (Some window)))) = []
  /\ activeTabId (closeTab 1 (exec [CreateTab []] (initial (Some window)))) = None.
Proof.
  split; [reflexivity|].
  exact (proj2 (proj2 (single_active (Some window) [CreateTab []])) 1 eq_refl).
Defined.

(** C2 (activation fallback).  In a state a window has reached, closing
    the active tab removes it from the map; if tabs are left, the one
    with the greatest id is active afterwards; if none is left,
    [activeTabId] is null. *)
Theorem activation_fallback (w : option BrowserWindow) (ops : list Op) (a : Z) :
  activeTabId (exec ops (initial w)) = Some a ->
  JsMap.keys (tabs (closeTab a (exec ops (initial w))))
    = List.remove Z.eq_dec a (JsMap.keys (tabs (exec ops (initial w))))
  /\ (List.remove Z.eq_dec a (JsMap.keys (tabs (exec ops (initial w)))) <> [] ->
        exists m,
          activeTabId (closeTab a (exec ops (initial w))) = Some m
          /\ In m (List.remove Z.eq_dec a (JsMap.keys (tabs (exec ops (initial w)))))
          /\ forall k,
               In k (List.remove Z.eq_dec a (JsMap.keys (tabs (exec ops (initial w))))) ->
               k <= m)
  /\ (List.remove Z.eq_dec a (JsMap.keys (tabs (exec ops (initial w)))) = [] ->
        activeTabId (closeTab a (exec ops (initial w))) = None).
Proof.
  pose proof (exec_Inv w ops) as H.
  set (s := exec ops (initial w)) in *.
  intros Ha.
  destruct (inv_active _ H _ Ha) as [Hin Hw].
  pose proof (closeTab_keys a s H Hin Hw) as Ek.
  destruct (closeTab_active_tab a s H Ha) as [Hsome Hnil].
  rewrite Ek in Hsome, Hnil.
  pose proof (inv_sorted _ (closeTab_Inv a s H)) as Hs. rewrite Ek in Hs.
  split; [exact Ek|]. split; [|exact Hnil].
  intros Hne. destruct (last_of_in _ Hne) as (m & Hm & Hmin).
  exists m. split; [now apply Hsome|]. split; [assumption|].
  now apply sorted_last_greatest.
Qed.

Lemma activation_fallback_witness :
  activeTabId (exec three_tabs start) = Some 3
  /\ exists m,
       activeTabId (closeTab 3 (exec three_tabs start)) = Some m
       /\ In m [1; 2]
       /\ forall k, In k [1; 2] -> k <= m.
Proof.
  split; [reflexivity|].
  apply (proj1 (proj2 (activation_fallback (Some window) three_tabs 3 eq_refl))).
  discriminate.
Defined.

(** C5 (id monotonicity).  Over the run of a process, closes included,
    the ids the ['create-tab'] requests are answered with are strictly
    increasing, hence pairwise distinct: none is handed out twice.  A
    run is bounded by [2^53] operations, the range in which
    [nextTabId++] counts exactly. *)
Theorem id_monotonicity (w : option BrowserWindow) (ops : list Op) :
  Z.of_nat (List.length ops) < two53 ->
  StronglySorted Z.lt (created_ids (snd (run ops (initial w))))
  /\ NoDup (created_ids (snd (run ops (initial w)))).
Proof.
  intros Hlen.
  destruct (run_created_ids ops (initial w) (initial_Inv w)) as (_ & Hs & _).
  - change (nextTabId (initial w)) with 1. lia.
  - split; [assumption | now apply sorted_NoDup].
Qed.

Lemma id_monotonicity_witness :
  Z.of_nat (List.length busy_session) < two53
  /\ StronglySorted Z.lt (created_ids (snd (run busy_session start)))
  /\ NoDup (created_ids (snd (run busy_session start))).
Proof.
  assert (H : Z.of_nat (List.length busy_session) < two53) by reflexivity.
  split; [exact H | exact (id_monotonicity (Some window) busy_session H)].
Defined.

(** C10 (list order).  In every state a window has reached, ['get-tabs']
    lists the tabs by strictly increasing id. *)
Theorem list_order (w : option BrowserWindow) (ops : list Op) :
  StronglySorted Z.lt (map TabInfo.id (get_tabs (exec ops (initial w)))).
Proof.
  pose proof (exec_Inv w ops) as H.
  rewrite get_tabs_ids by apply H. apply H.
Qed.

(** C4 (unknown id).  For an id the map does not hold, ['switch-tab']
    and ['close-tab'] leave the whole state as it is (tabs, active id,
    window, messages sent), and both answer [{ success: true }]: the
    handlers have no failure reply. *)
Theorem unknown_id (i : Z) (s : State) :
  JsMap.get i (tabs s) = None ->
  switch_tab i s = (s, result {| success := true; text := None; error := None |})
  /\ close_tab i s = (s, result {| success := true; text := None; error := None |}).
Proof.
  intros H. unfold switch_tab, close_tab.
  now rewrite switchToTab_unknown, closeTab_unknown.
Qed.

Lemma unknown_id_witness :
  JsMap.get 7 (tabs one_tab) = None
  /\ switch_tab 7 one_tab
     = (one_tab, result {| success := true; text := None; error := None |})
  /\ close_tab 7 one_tab
     = (one_tab, result {| success := true; text := None; error := None |}).
Proof.
  split; [reflexivity | exact (unknown_id 7 one_tab eq_refl)].
Defined.

(** C4, as the specification has it, fails: tab 7 does not exist, and
    both handlers report success. *)
Lemma unknown_id_counterexample :
  JsMap.get 7 (tabs one_tab) = None
  /\ snd (switch_tab 7 one_tab)
     = result {| success := true; text := None; error := None |}
  /\ snd (close_tab 7 one_tab)
     = result {| success := true; text := None; error := None |}.
Proof. repeat split. Qed.

End TabManager.

(* ------------------------------------------------------------------ *)
(** ** The action executor (['execute-action']) *)

Module ActionExecutor.

Import Js.
Import Electron.
Import Main.
Import JsMapFacts.
Import Scenario.

Lemma eqb_eq (s t : JsString) : Js.eqb s t = true <-> s = t.
Proof.
  revert t. induction s as [|c s IH]; destruct t as [|d t]; simpl;
    try (split; (discriminate || reflexivity)).
  rewrite andb_true_iff, Z.eqb_eq, IH. split.
  - intros [-> ->]. reflexivity.
  - intros [= -> ->]. auto.
Qed.

(** Decides the comparisons of [action.type] with the labels of the
    [switch] once the type is known. *)
Ltac decide_type Ht :=
  unfold is_type; rewrite Ht;
  repeat match goal with
         | |- context [Js.eqb (lit ?a) (lit ?b)] =>
             let v := eval vm_compute in (Js.eqb (lit a) (lit b)) in
             change (Js.eqb (lit a) (lit b)) with v
         end;
  cbv iota.

Lemma has_get {V : Type} k (m : JsMap.t V) :
  JsMap.has k m = true -> exists v, JsMap.get k m = Some v.
Proof.
  unfold JsMap.has. destruct (JsMap.get k m) as [v|]; [eauto | discriminate].
Qed.

Lemma modify_ext {V : Type} k (f g : V -> V) (m : JsMap.t V) :
  (forall v, f v = g v) -> JsMap.modify k f m = JsMap.modify k g m.
Proof.
  intros H. unfold JsMap.modify. apply map_ext. intros [k' v]. simpl.
  now rewrite H.
Qed.

Lemma on_tab_ext k f g s :
  (forall wc, f wc = g wc) -> on_tab k f s = on_tab k g s.
Proof.
  intros H. unfold on_tab. f_equal. apply modify_ext.
  intros t. unfold with_view, on_webContents. now rewrite H.
Qed.

Lemma on_tab_same k f s : (forall wc, f wc = wc) -> on_tab k f s = s.
Proof.
  intros H. unfold on_tab, set_tabs. destruct s as [w m a n v]. simpl.
  f_equal. unfold JsMap.modify. rewrite <- (map_id m) at 2.
  apply map_ext. intros [k' t]. simpl. destruct (k' =? k); [|reflexivity].
  f_equal. destruct t as [i [r vis b wc] u ti].
  unfold with_view, on_webContents. simpl. now rewrite H.
Qed.

(** C3 (action precondition).  With [activeTabId] null,
    ['execute-action'] answers, for any action whatever, the failure
    whose message is ["No active tab"], and leaves the state as it is:
    no tab receives an input event or a script. *)
Theorem action_precondition (act : Action) (page : Page) (s : State) :
  activeTabId s = None ->
  execute_action act page s
  = (s, result {| success := false; text := None;
                  error := Some (lit "No active tab") |}).
Proof. intros H. unfold execute_action. now rewrite H. Qed.

Lemma action_precondition_witness :
  activeTabId start = None
  /\ execute_action click_10_10 blank start
     = (start, result {| success := false; text := None;
                         error := Some (lit "No active tab") |}).
Proof.
  split; [reflexivity | exact (action_precondition click_10_10 blank start eq_refl)].
Defined.

(** C3, as the specification has it, fails: with no tab open, a click at
    (10, 10) is refused with a message other than
    ["no active surface"]. *)
Lemma action_precondition_counterexample :
  activeTabId start = None
  /\ snd (execute_action click_10_10 blank start)
     = result {| success := false; text := None;
                 error := Some (lit "No active tab") |}
  /\ snd (execute_action click_10_10 blank start)
     <> result {| success := false; text := None;
                  error := Some (lit "no active surface") |}.
Proof.
  split; [reflexivity|]. split; [reflexivity|].
  vm_compute. discriminate.
Qed.

(** *** [extract-text] *)

Lemma substring_0_5000 (body : JsString) :
  substring body 0 5000 = firstn (Z.to_nat 5000) body.
Proof.
  unfold substring, clamp.
  set (len := Z.of_nat (List.length body)).
  assert (Hlen : 0 <= len) by (subst len; lia).
  replace (Z.min (Z.max 0 0) len) with 0 by lia.
  replace (Z.max 5000 0) with 5000 by lia.
  replace (Z.min 0 (Z.min 5000 len)) with 0 by lia.
  replace (Z.max 0 (Z.min 5000 len) - 0) with (Z.min 5000 len) by lia.
  change (Z.to_nat 0) with 0%nat. rewrite skipn_O.
  destruct (Z.le_gt_cases 5000 len) as [Hle|Hgt].
  - now replace (Z.min 5000 len) with 5000 by lia.
  - replace (Z.min 5000 len) with len by lia.
    subst len. rewrite Nat2Z.id, firstn_all.
    symmetry. apply firstn_all2. lia.
Qed.

(** C7 (extract-text bound).  With an active tab whose page has the
    body text [body], ['execute-action'] of [extract-text] runs the one
    script on that tab and answers success with, as [text], the first
    [min(L, 5000)] code units of [body], [L] being its length; a body of
    9000 gives 5000. *)
Theorem extract_text_bound (s : State) (a : Z) (page : Page) (body : JsString)
    (act : Action) :
  activeTabId s = Some a ->
  JsMap.has a (tabs s) = true ->
  innerText page = Some body ->
  Action.type act = lit "extract-text" ->
  execute_action act page s
  = (on_tab a (request (executeJavaScript (innerText_substring 0 5000))) s,
     result {| success := true;
               text := Some (firstn (Z.to_nat 5000) body);
               error := None |})
  /\ Z.of_nat (List.length (firstn (Z.to_nat 5000) body))
     = Z.min (Z.of_nat (List.length body)) 5000
  /\ (Z.of_nat (List.length body) = 9000 ->
      Z.of_nat (List.length (firstn (Z.to_nat 5000) body)) = 5000).
Proof.
  intros Ha Hh Hb Ht. destruct (has_get _ _ Hh) as [tab Hg].
  assert (Hl : Z.of_nat (List.length (firstn (Z.to_nat 5000) body))
               = Z.min (Z.of_nat (List.length body)) 5000).
  { rewrite length_firstn. lia. }
  split; [|split; [exact Hl | lia]].
  unfold execute_action. rewrite Ha, Hg. decide_type Ht.
  unfold evaluate. rewrite Hb. now rewrite substring_0_5000.
Qed.

Lemma extract_text_bound_witness :
  activeTabId one_tab = Some 1
  /\ JsMap.has 1 (tabs one_tab) = true
  /\ innerText (page_with (repeat 97 (Z.to_nat 9000)))
     = Some (repeat 97 (Z.to_nat 9000))
  /\ Action.type (action "extract-text") = lit "extract-text"
  /\ Z.of_nat (List.length (firstn (Z.to_nat 5000) (repeat 97 (Z.to_nat 9000))))
     = 5000.
Proof.
  repeat (split; [reflexivity|]).
  apply (extract_text_bound one_tab 1 (page_with (repeat 97 (Z.to_nat 9000)))
           (repeat 97 (Z.to_nat 9000)) (action "extract-text")
           eq_refl eq_refl eq_refl eq_refl).
  rewrite repeat_length. apply Z2Nat.id. discriminate.
Defined.

(** *** [scroll] *)

(** C8 (scroll).  With an active tab, ['execute-action'] of [scroll]
    runs [window.scrollBy(0, d)] on that tab and answers success, where
    [d] is [-(amount || 500)] when the direction is ["up"] and
    [amount || 500] for any other direction, absent included;
    [amount || 500] is [amount] when it is given and not zero, and 500
    when it is absent or zero. *)
Theorem scroll_semantics (s : State) (a : Z) (page : Page) (act : Action) :
  activeTabId s = Some a ->
  JsMap.has a (tabs s) = true ->
  Action.type act = lit "scroll" ->
  execute_action act page s
  = (on_tab a (request (executeJavaScript (scrollBy 0 (scroll_delta act)))) s,
     result {| success := true; text := None; error := None |})
  /\ (Action.direction act = Some (lit "up") ->
      scroll_delta act = - or_default (Action.amount act) 500)
  /\ (Action.direction act <> Some (lit "up") ->
      scroll_delta act = or_default (Action.amount act) 500)
  /\ (forall n, Action.amount act = Some n -> n <> 0 ->
      or_default (Action.amount act) 500 = n)
  /\ (Action.amount act = None \/ Action.amount act = Some 0 ->
      or_default (Action.amount act) 500 = 500).
Proof.
  intros Ha Hh Ht. destruct (has_get _ _ Hh) as [tab Hg].
  split; [|split; [|split; [|split]]].
  - unfold execute_action. rewrite Ha, Hg. decide_type Ht. reflexivity.
  - intros Hd. unfold scroll_delta. rewrite Hd.
    now rewrite (proj2 (eqb_eq _ _) eq_refl).
  - intros Hd. unfold scroll_delta.
    destruct (Action.direction act) as [d|]; [|reflexivity].
    destruct (Js.eqb d (lit "up")) eqn:E; [|reflexivity].
    apply eqb_eq in E. congruence.
  - intros n Hn Hne. unfold or_default. rewrite Hn.
    destruct (Z.eqb_spec n 0); [contradiction | reflexivity].
  - intros [Hn|Hn]; unfold or_default; now rewrite Hn.
Qed.

Lemma scroll_semantics_witness :
  activeTabId one_tab = Some 1
  /\ JsMap.has 1 (tabs one_tab) = true
  /\ Action.type (scroll "up" (Some 120)) = lit "scroll"
  /\ execute_action (scroll "up" (Some 120)) blank one_tab
     = (on_tab 1 (request (executeJavaScript
                             (scrollBy 0 (scroll_delta (scroll "up" (Some 120))))))
          one_tab,
        result {| success := true; text := None; error := None |}).
Proof.
  repeat (split; [reflexivity|]).
  exact (proj1 (scroll_semantics one_tab 1 blank (scroll "up" (Some 120))
                  eq_refl eq_refl eq_refl)).
Defined.

(** C8, as the specification has it, fails: a scroll down by the
    amount 0 scrolls by 500. *)
Lemma scroll_semantics_counterexample :
  activeTabId one_tab = Some 1
  /\ Action.amount (scroll "down" (Some 0)) = Some 0
  /\ fst (execute_action (scroll "down" (Some 0)) blank one_tab)
     = on_tab 1 (request (executeJavaScript (scrollBy 0 500))) one_tab
  /\ Z.abs (scroll_delta (scroll "down" (Some 0))) <> 0.
Proof. repeat split. discriminate. Qed.

(** *** [type] *)

Lemma type_text_requests (cs : list JsString) : forall wc,
  fold_left type_char cs wc
  = {| requests :=
         requests wc
         ++ flat_map (fun c => [sendInputEvent (keyDown c);
                                sendInputEvent (char c);
                                sendInputEvent (keyUp c)]) cs |}.
Proof.
  induction cs as [|c cs IH]; intros [rq]; simpl.
  - now rewrite app_nil_r.
  - rewrite IH. unfold type_char, request. simpl.
    now rewrite <- !app_assoc.
Qed.

(** The iterator cuts the string into its characters, in order. *)
Lemma concat_chars_upto (n : nat) : forall t,
  (List.length t <= n)%nat -> concat (chars t) = t.
Proof.
  induction n as [|n IH]; intros [|c [|d r]] Hlen; simpl in *;
    try reflexivity; try lia.
  - destruct (is_lead c && is_trail d); simpl.
    + f_equal. f_equal. apply IH. lia.
    + f_equal. apply (IH (d :: r)). simpl. lia.
Qed.

Lemma concat_chars (t : JsString) : concat (chars t) = t.
Proof. now apply (concat_chars_upto (List.length t)). Qed.

(** C9 (type).  With an active tab, ['execute-action'] of [type] with
    the text [txt] sends that tab, for each character of [txt] in
    order, a [keyDown], a [char] and a [keyUp] event, in this order,
    after what it was sent before, and answers success; the characters
    are the pieces of [txt] in order; for the empty text the state stays
    as it is. *)
Theorem type_semantics (s : State) (a : Z) (page : Page) (act : Action)
    (txt : JsString) :
  activeTabId s = Some a ->
  JsMap.has a (tabs s) = true ->
  Action.type act = lit "type" ->
  Action.text act = Some txt ->
  execute_action act page s
  = (on_tab a
       (fun wc =>
          {| requests :=
               requests wc
               ++ flat_map (fun c => [sendInputEvent (keyDown c);
                                      sendInputEvent (char c);
                                      sendInputEvent (keyUp c)])
                    (chars txt) |}) s,
     result {| success := true; text := None; error := None |})
  /\ concat (chars txt) = txt
  /\ (txt = [] ->
      execute_action act page s
      = (s, result {| success := true; text := None; error := None |})).
Proof.
  intros Ha Hh Ht Hx. destruct (has_get _ _ Hh) as [tab Hg].
  assert (E : execute_action act page s = (on_tab a (type_text act) s, result ok)).
  { unfold execute_action. rewrite Ha, Hg. decide_type Ht. reflexivity. }
  split; [|split; [apply concat_chars|]].
  - rewrite E. f_equal. apply on_tab_ext. intros wc.
    unfold type_text. rewrite Hx. destruct txt as [|c r].
    + simpl. rewrite app_nil_r. now destruct wc.
    + cbn [truthy]. apply type_text_requests.
  - intros ->. rewrite E. f_equal. apply on_tab_same. intros wc.
    unfold type_text. now rewrite Hx.
Qed.

Lemma type_semantics_witness :
  activeTabId one_tab = Some 1
  /\ JsMap.has 1 (tabs one_tab) = true
  /\ Action.type (type_ (lit "ok")) = lit "type"
  /\ Action.text (type_ (lit "ok")) = Some (lit "ok")
  /\ execute_action (type_ (lit "ok")) blank one_tab
     = (on_tab 1
          (fun wc =>
             {| requests :=
                  requests wc
                  ++ flat_map (fun c => [sendInputEvent (keyDown c);
                                         sendInputEvent (char c);
                                         sendInputEvent (keyUp c)])
                       (chars (lit "ok")) |}) one_tab,
        result {| success := true; text := None; error := None |}).
Proof.
  repeat (split; [reflexivity|]).
  exact (proj1 (type_semantics one_tab 1 blank (type_ (lit "ok")) (lit "ok")
                  eq_refl eq_refl eq_refl eq_refl)).
Defined.

End ActionExecutor.

(* ------------------------------------------------------------------ *)
(** ** Base64: decoding what was encoded *)

Module Base64Facts.

Import Js.
Import Base64.

Lemma byte_val_range b : is_byte (byte_val b).
Proof.
  unfold is_byte, byte_val. pose proof (Byte.to_N_bounded b). lia.
Qed.

Lemma to_uint8_byte_val b : to_uint8 (byte_val b) = b.
Proof.
  unfold to_uint8. pose proof (byte_val_range b) as H. unfold is_byte in H.
  rewrite Z.mod_small by lia. unfold byte_val.
  now rewrite N2Z.id, Byte.of_to_N.
Qed.

Lemma map_to_uint8 (p : list byte) : map to_uint8 (binary_string p) = p.
Proof.
  unfold binary_string. rewrite map_map.
  rewrite <- (map_id p) at 2. apply map_ext, to_uint8_byte_val.
Qed.

(** Induction three bytes at a time. *)
Lemma by_threes (P : list Z -> Prop) :
  P [] -> (forall a, P [a]) -> (forall a b, P [a; b]) ->
  (forall a b c r, P r -> P (a :: b :: c :: r)) ->
  forall l, P l.
Proof.
  intros H0 H1 H2 H3 l.
  assert (H : forall n l, (List.length l <= n)%nat -> P l).
  { induction n as [|n IH]; intros [|a [|b [|c r]]] Hlen; simpl in Hlen;
      auto; try lia.
    apply H3, IH. lia. }
  now apply (H (List.length l)).
Qed.

(** Settles the comparisons of the goal, innermost conditions first. *)
Ltac compare_all :=
  repeat (match goal with
          | |- context [?a <? ?b] => destruct (Z.ltb_spec a b)
          | |- context [?a <=? ?b] => destruct (Z.leb_spec a b)
          | |- context [?a =? ?b] => destruct (Z.eqb_spec a b)
          end; cbn [andb orb negb]; cbv iota).

Lemma alphabet_sextet n : is_six n -> sextet (alphabet n) = Some n.
Proof.
  unfold is_six, alphabet. intros H.
  compare_all; unfold sextet; compare_all; try (f_equal; lia); lia.
Qed.

Lemma alphabet_plain n :
  is_six n -> alphabet n <> 61 /\ is_whitespace (alphabet n) = false.
Proof.
  unfold is_six, alphabet. intros H.
  compare_all; unfold is_whitespace; compare_all; split;
    try reflexivity; lia.
Qed.

Lemma sixes_range l : Forall is_byte l -> Forall is_six (sixes l).
Proof.
  unfold is_byte, is_six.
  induction l as [|a|a b|a b c r IH] using by_threes; intros H; simpl.
  - constructor.
  - apply Forall_cons_iff in H. destruct H as [Ha _].
    repeat constructor; Z.div_mod_to_equations; lia.
  - apply Forall_cons_iff in H. destruct H as [Ha H].
    apply Forall_cons_iff in H. destruct H as [Hb _].
    repeat constructor; Z.div_mod_to_equations; lia.
  - apply Forall_cons_iff in H. destruct H as [Ha H].
    apply Forall_cons_iff in H. destruct H as [Hb H].
    apply Forall_cons_iff in H. destruct H as [Hc H].
    repeat (constructor; [Z.div_mod_to_equations; lia|]). now apply IH.
Qed.

Lemma decode_sixes l : Forall is_byte l -> decode (sixes l) = l.
Proof.
  unfold is_byte.
  induction l as [|a|a b|a b c r IH] using by_threes; intros H.
  - reflexivity.
  - apply Forall_cons_iff in H. destruct H as [Ha _].
    cbn [sixes decode]. f_equal. Z.div_mod_to_equations. lia.
  - apply Forall_cons_iff in H. destruct H as [Ha H].
    apply Forall_cons_iff in H. destruct H as [Hb _].
    cbn [sixes decode]. cbv zeta.
    f_equal; [|f_equal]; Z.div_mod_to_equations; lia.
  - apply Forall_cons_iff in H. destruct H as [Ha H].
    apply Forall_cons_iff in H. destruct H as [Hb H].
    apply Forall_cons_iff in H. destruct H as [Hc H].
    cbn [sixes decode]. cbv zeta. rewrite (IH H).
    f_equal; [|f_equal; [|f_equal]]; Z.div_mod_to_equations; lia.
Qed.

Lemma sextets_alphabet ns :
  Forall is_six ns -> sextets (map alphabet ns) = Some ns.
Proof.
  induction 1 as [|n ns Hn Hns IH]; simpl; [reflexivity|].
  now rewrite (alphabet_sextet n Hn), IH.
Qed.

Lemma filter_alphabet ns :
  Forall is_six ns ->
  filter (fun c => negb (is_whitespace c)) (map alphabet ns) = map alphabet ns.
Proof.
  induction 1 as [|n ns Hn Hns IH]; simpl; [reflexivity|].
  destruct (alphabet_plain n Hn) as [_ ->]. simpl. now rewrite IH.
Qed.

Lemma alphabet_not_padding ns :
  Forall is_six ns -> Forall (fun c => c <> 61) (map alphabet ns).
Proof.
  induction 1 as [|n ns Hn Hns IH]; simpl; constructor; [|assumption].
  now destruct (alphabet_plain n Hn).
Qed.

(** The characters and the padding add up to a multiple of four. *)
Lemma encoded_shape l :
  exists k : nat,
    (List.length (sixes l) = (4 * k)%nat /\ padding l = [])
    \/ (List.length (sixes l) = (4 * k + 3)%nat /\ padding l = [61])
    \/ (List.length (sixes l) = (4 * k + 2)%nat /\ padding l = [61; 61]).
Proof.
  induction l as [|a|a b|a b c r IH] using by_threes.
  - exists 0%nat. now left.
  - exists 0%nat. right. right. now split.
  - exists 0%nat. right. left. now split.
  - destruct IH as [k IH]. exists (S k). cbn [sixes padding List.length].
    destruct IH as [[E ->]|[[E ->]|[E ->]]]; rewrite E;
      [left | right; left | right; right]; split; (lia || reflexivity).
Qed.

Lemma strip_padding_plain (xs pad : JsString) :
  Forall (fun c => c <> 61) xs ->
  pad = [] \/ pad = [61] \/ pad = [61; 61] ->
  strip_padding (xs ++ pad) = xs.
Proof.
  intros Hxs Hpad. unfold strip_padding.
  assert (Hrev : Forall (fun c => c <> 61) (rev xs)).
  { rewrite Forall_forall in *. intros c Hc. apply Hxs. now apply in_rev. }
  destruct Hpad as [-> | [-> | ->]]; rewrite ?app_nil_r, ?rev_app_distr;
    cbn [rev app].
  - destruct (rev xs) as [|c1 [|c2 r]] eqn:E; [reflexivity| |];
      apply Forall_cons_iff in Hrev; destruct Hrev as [Hc1 _];
      now destruct (Z.eqb_spec c1 61).
  - destruct (rev xs) as [|c2 r] eqn:E.
    + cbn. apply (f_equal (@rev Z)) in E. rewrite rev_involutive in E.
      now rewrite E.
    + apply Forall_cons_iff in Hrev. destruct Hrev as [Hc2 _].
      apply (f_equal (@rev Z)) in E. rewrite rev_involutive in E. subst xs.
      change (61 =? 61) with true. cbv iota.
      now destruct (Z.eqb_spec c2 61).
  - change (61 =? 61) with true. cbv iota. apply rev_involutive.
Qed.

(** [atob] undoes the encoding. *)
Lemma atob_encoded l :
  Forall is_byte l -> atob (map alphabet (sixes l) ++ padding l) = Some l.
Proof.
  intros Hl. pose proof (sixes_range l Hl) as Hs.
  destruct (encoded_shape l) as [k Hk].
  assert (Hpad : padding l = [] \/ padding l = [61] \/ padding l = [61; 61])
    by (destruct Hk as [[_ E]|[[_ E]|[_ E]]]; auto).
  assert (Hfilter :
    filter (fun c => negb (is_whitespace c)) (map alphabet (sixes l) ++ padding l)
    = map alphabet (sixes l) ++ padding l).
  { rewrite filter_app, filter_alphabet by assumption. f_equal.
    destruct Hpad as [-> | [-> | ->]]; reflexivity. }
  unfold atob. rewrite Hfilter.
  assert (Hlen4 :
    Z.of_nat (List.length (map alphabet (sixes l) ++ padding l)) mod 4 = 0).
  { rewrite length_app, length_map.
    destruct Hk as [[E ->]|[[E ->]|[E ->]]]; rewrite E; cbn [List.length];
      Z.div_mod_to_equations; lia. }
  rewrite Hlen4. change (0 =? 0) with true. cbv iota.
  rewrite strip_padding_plain by (auto using alphabet_not_padding).
  assert (Hlen1 :
    (Z.of_nat (List.length (map alphabet (sixes l))) mod 4 =? 1) = false).
  { apply Z.eqb_neq. rewrite length_map.
    destruct Hk as [[E _]|[[E _]|[E _]]]; rewrite E;
      Z.div_mod_to_equations; lia. }
  rewrite Hlen1, sextets_alphabet by assumption.
  now rewrite decode_sixes.
Qed.

Lemma atob_toString_base64 (p : list byte) :
  atob (toString_base64 p) = Some (binary_string p).
Proof.
  unfold toString_base64, binary_string. apply atob_encoded.
  apply Forall_forall. intros z Hz. apply in_map_iff in Hz.
  destruct Hz as (b & <- & _). apply byte_val_range.
Qed.

End Base64Facts.

(* ------------------------------------------------------------------ *)
(** ** The binary frames of the transport *)

Module Transport.

Import Js.
Import Base64.
Import Base64Facts.
Import App.

Lemma audio_frame_bytes (pcmData : list byte) :
  audio_frame pcmData = Some (Byte.x01 :: pcmData).
Proof.
  unfold audio_frame, set, new_Uint8Array.
  cbn [List.length Nat.add repeat firstn skipn app Nat.leb].
  rewrite repeat_length, Nat.leb_refl.
  rewrite skipn_all2 by (rewrite repeat_length; lia).
  now rewrite app_nil_r.
Qed.

Lemma store_after (pre : Uint8Array) : forall i b view,
  store (List.length pre + i) b (pre ++ view) = pre ++ store i b view.
Proof.
  induction pre as [|a pre IH]; intros i b view; simpl; [reflexivity|].
  now rewrite IH.
Qed.

Lemma firstn_next {A : Type} (d : A) (l : list A) : forall k,
  (k < List.length l)%nat -> firstn (S k) l = firstn k l ++ [nth k l d].
Proof.
  induction l as [|a l IH]; intros k Hk; simpl in Hk; [lia|].
  destruct k as [|k]; [reflexivity|].
  cbn [firstn nth app]. f_equal. rewrite <- IH by lia. reflexivity.
Qed.

(** The loop of [sendScreenshot] after [k] rounds: [k] bytes are in
    place behind the discriminator, the rest is still zero. *)
Lemma screenshot_loop (bytes : JsString) (k : nat) :
  (k <= List.length bytes)%nat ->
  fold_left
    (fun v i => store (i + 1) (to_uint8 (charCodeAt bytes i)) v)
    (seq 0 k)
    (Byte.x02 :: repeat Byte.x00 (List.length bytes))
  = Byte.x02 :: map to_uint8 (firstn k bytes)
      ++ repeat Byte.x00 (List.length bytes - k).
Proof.
  induction k as [|k IH]; intros Hk.
  - simpl. now rewrite Nat.sub_0_r.
  - rewrite seq_S, fold_left_app, IH by lia. cbn [fold_left Nat.add].
    replace (k + 1)%nat with (S k) by lia. cbn [store]. f_equal.
    replace (List.length bytes - k)%nat with (S (List.length bytes - S k)) by lia.
    cbn [repeat].
    assert (Ek : List.length (map to_uint8 (firstn k bytes)) = k).
    { rewrite length_map, length_firstn. lia. }
    rewrite <- (Nat.add_0_r k) at 1. rewrite <- Ek at 1.
    rewrite store_after. cbn [store].
    unfold charCodeAt. rewrite (firstn_next 0 bytes k) by lia.
    rewrite map_app. cbn [map]. now rewrite <- app_assoc.
Qed.

Lemma screenshot_frame_bytes (bytes : JsString) :
  screenshot_frame bytes = Byte.x02 :: map to_uint8 bytes.
Proof.
  unfold screenshot_frame, new_Uint8Array.
  replace (List.length bytes + 1)%nat with (S (List.length bytes)) by lia.
  cbn [repeat store]. rewrite screenshot_loop by lia.
  now rewrite firstn_all, Nat.sub_diag, app_nil_r.
Qed.

(** C6 (framing round trip).  For every byte sequence [P], on an open
    socket: [sendAudio] hands the socket the one message [0x01] followed
    by [P]; [sendScreenshot], given the base64 text of [P] (as the main
    process produces it, or any text [atob] decodes to [P]), hands it the
    one message [0x02] followed by [P]; and the decoder of the receiving
    side splits either message back into its discriminator and [P]. *)
Theorem framing_round_trip (P : list byte) (out : list Data) :
  sendAudio P (Some {| readyState := OPEN; sent := out |})
  = Some (Some {| readyState := OPEN;
                  sent := out ++ [binary (Byte.x01 :: P)] |})
  /\ sendScreenshot (toString_base64 P) (Some {| readyState := OPEN; sent := out |})
     = Some (Some {| readyState := OPEN;
                     sent := out ++ [binary (Byte.x02 :: P)] |})
  /\ (forall base64,
        atob base64 = Some (binary_string P) ->
        sendScreenshot base64 (Some {| readyState := OPEN; sent := out |})
        = Some (Some {| readyState := OPEN;
                        sent := out ++ [binary (Byte.x02 :: P)] |}))
  /\ Backend.decode_frame (Byte.x01 :: P) = Some (Byte.x01, P)
  /\ Backend.decode_frame (Byte.x02 :: P) = Some (Byte.x02, P).
Proof.
  assert (H : forall base64,
            atob base64 = Some (binary_string P) ->
            sendScreenshot base64 (Some {| readyState := OPEN; sent := out |})
            = Some (Some {| readyState := OPEN;
                            sent := out ++ [binary (Byte.x02 :: P)] |})).
  { intros base64 E. unfold sendScreenshot. cbn [is_open readyState].
    now rewrite E, screenshot_frame_bytes, map_to_uint8. }
  split; [|split; [|split; [exact H | split; reflexivity]]].
  - unfold sendAudio. cbn [is_open readyState].
    now rewrite audio_frame_bytes.
  - apply H, atob_toString_base64.
Qed.

Lemma framing_round_trip_witness :
  atob (lit "/9j/4A==")
  = Some (binary_string [Byte.xff; Byte.xd8; Byte.xff; Byte.xe0])
  /\ sendScreenshot (lit "/9j/4A==") (Some {| readyState := OPEN; sent := [] |})
     = Some (Some {| readyState := OPEN;
                     sent := [] ++ [binary [Byte.x02; Byte.xff; Byte.xd8;
                                            Byte.xff; Byte.xe0]] |}).
Proof.
  split; [reflexivity|].
  exact (proj1 (proj2 (proj2
           (framing_round_trip [Byte.xff; Byte.xd8; Byte.xff; Byte.xe0] [])))
           (lit "/9j/4A==") eq_refl).
Defined.

End Transport.
(* ------------------------------------------------------------------ *)
(** ** Events of the window: the invariant goes on *)

Module WindowFacts.

Import Js.
Import Electron.
Import Main.
Import Invariant.
Import JsMapFacts.
Import MainFacts.
Import Window.

Lemma after_snoc evs e s : after (evs ++ [e]) s = handle e (after evs s).
Proof. unfold after. now rewrite fold_left_app. Qed.

Lemma after_cons e evs s : after (e :: evs) s = after evs (handle e s).
Proof. reflexivity. Qed.

(** A run of requests is a run of events. *)
Lemma exec_after ops : forall s, exec ops s = after (map ipc ops) s.
Proof.
  induction ops as [|op ops IH]; intros s; [reflexivity|].
  unfold exec in *. rewrite run_cons. cbn [fst map]. rewrite after_cons.
  apply IH.
Qed.

Lemma resize_Inv size s : Inv s -> Inv (resize size s).
Proof.
  intros H. unfold resize. destruct (mainWindow s) as [w|] eqn:Ew; [|assumption].
  assert (H1 : Inv (set_mainWindow (Some (set_contentSize size w)) s)).
  { apply (Inv_frame s); simpl; auto; try apply H.
    intros a Ha. destruct (inv_active _ H _ Ha). split; [assumption|discriminate]. }
  cbn [activeTabId set_mainWindow tabs].
  destruct (activeTabId s) as [a|]; [|assumption].
  destruct (JsMap.get a (tabs s)); [|assumption].
  apply (Inv_frame _ _ H1); simpl; auto using keys_modify.
  - apply ids_modify_view, H.
  - intros b Hb. destruct (inv_active _ H1 _ Hb). split; [assumption|discriminate].
Qed.

Lemma handle_Inv e s : Inv s -> Inv (handle e s).
Proof.
  destruct e as [op|width height]; simpl; auto using step_Inv, resize_Inv.
Qed.

Lemma after_Inv evs : forall s, Inv s -> Inv (after evs s).
Proof.
  induction evs as [|e evs IH]; intros s H; [exact H|].
  rewrite after_cons. apply IH. now apply handle_Inv.
Qed.

(** *** The window stays *)

Lemma fold_attach_contentSize i (m : JsMap.t Tab) : forall w,
  contentSize (fold_left (attach i) m w) = contentSize w
  /\ sent (fold_left (attach i) m w) = sent w.
Proof.
  induction m as [|e m IH]; intros w; simpl; [auto|].
  destruct (IH (attach i w e)) as [-> ->]. unfold attach.
  destruct (fst e =? i); [|auto].
  destruct (includes _ _); auto.
Qed.

Lemma switchToTab_window_kept i s :
  mainWindow s <> None -> mainWindow (switchToTab i s) <> None.
Proof. apply switchToTab_window. Qed.

Lemma closeTab_window i s : mainWindow s <> None -> mainWindow (closeTab i s) <> None.
Proof.
  intros Hw. unfold closeTab.
  destruct (JsMap.get i (tabs s)) as [t|]; [|assumption].
  destruct (mainWindow s) as [w|] eqn:Ew; [|congruence].
  apply send_opt_window. unfold fall_back.
  change (activeTabId (remove_tab i t w s)) with (activeTabId s).
  destruct (activeTabId s) as [a|]; [|discriminate].
  destruct (a =? i); [|discriminate].
  destruct (0 <? _); [|discriminate].
  destruct (last_of _); [|discriminate].
  apply switchToTab_window. discriminate.
Qed.

Lemma createTab_window u s :
  mainWindow s <> None -> mainWindow (fst (createTab u s)) <> None.
Proof.
  intros Hw. unfold createTab. cbv zeta. cbn [fst].
  apply send_opt_window, switchToTab_window. now destruct (truthy u).
Qed.

Lemma execute_action_window a page s :
  mainWindow (fst (execute_action a page s)) = mainWindow s.
Proof.
  unfold execute_action.
  destruct (activeTabId s) as [act|]; [|reflexivity].
  destruct (JsMap.get act (tabs s)); [|reflexivity].
  split_cases; reflexivity.
Qed.

Lemma handle_window e s : mainWindow s <> None -> mainWindow (handle e s) <> None.
Proof.
  intros Hw. destruct e as [op|width height].
  - unfold handle. rewrite fst_step. destruct op as [u|i|i|u|a page|i u|i u].
    + now apply createTab_window.
    + now apply switchToTab_window.
    + now apply closeTab_window.
    + unfold navigate. destruct (activeTabId s) as [a|].
      * now destruct (JsMap.get a (tabs s)).
      * now apply createTab_window.
    + now rewrite execute_action_window.
    + unfold did_navigate. destruct (JsMap.get i (tabs s)); [|assumption].
      now apply send_opt_window.
    + unfold page_title_updated. destruct (JsMap.get i (tabs s)); [|assumption].
      now apply send_opt_window.
  - unfold handle, resize. destruct (mainWindow s) as [w|]; [|contradiction].
    cbn [activeTabId set_mainWindow tabs].
    destruct (activeTabId s) as [a|]; [|discriminate].
    destruct (JsMap.get a (tabs s)); discriminate.
Qed.

Lemma after_window evs : forall s,
  mainWindow s <> None -> mainWindow (after evs s) <> None.
Proof.
  induction evs as [|e evs IH]; intros s H; [exact H|].
  rewrite after_cons. apply IH. now apply handle_window.
Qed.

(** *** The counter *)

Lemma handle_next e s :
  Inv s ->
  nextTabId (handle e s) = nextTabId s
  \/ nextTabId (handle e s) = incr (nextTabId s).
Proof.
  intros H. destruct e as [op|width height].
  - apply (step_next op s H).
  - left. unfold handle, resize. destruct (mainWindow s) as [w|]; [|reflexivity].
    cbn [activeTabId set_mainWindow tabs].
    destruct (activeTabId s) as [a|]; [|reflexivity].
    now destruct (JsMap.get a (tabs s)).
Qed.

Lemma after_next evs : forall s,
  Inv s ->
  nextTabId s <= nextTabId (after evs s)
              <= nextTabId s + Z.of_nat (List.length evs).
Proof.
  induction evs as [|e evs IH]; intros s H.
  - simpl. lia.
  - rewrite after_cons. specialize (IH (handle e s) (handle_Inv e s H)).
    change (List.length (e :: evs)) with (S (List.length evs)).
    pose proof (inv_next _ H) as Hn.
    destruct (incr_bounds (nextTabId s) Hn) as [_ Hi].
    assert (incr (nextTabId s) <= nextTabId s + 1).
    { unfold incr. destruct (nextTabId s <? two53); lia. }
    destruct (handle_next e s H) as [E|E]; rewrite E in IH; lia.
Qed.

End WindowFacts.

(* ------------------------------------------------------------------ *)
(** ** The views: visible, laid out, attached *)

Module LayoutFacts.

Import Js.
Import Electron.
Import Main.
Import Invariant.
Import JsMapFacts.
Import MainFacts.
Import Window.
Import WindowFacts.
Import Layout.

(** *** Lookups *)

Lemma get_modify {V : Type} j k (f : V -> V) (m : JsMap.t V) :
  JsMap.get j (JsMap.modify k f m)
  = if j =? k then option_map f (JsMap.get j m) else JsMap.get j m.
Proof.
  induction m as [|[k' v'] m IH]; simpl; [now destruct (j =? k)|].
  destruct (Z.eqb_spec k' k) as [->|Hk]; simpl.
  - destruct (Z.eqb_spec k j) as [->|Hj].
    + now rewrite Z.eqb_refl.
    + rewrite IH. destruct (Z.eqb_spec j k); [congruence | reflexivity].
  - destruct (Z.eqb_spec k' j) as [->|Hj].
    + destruct (Z.eqb_spec j k); [congruence | reflexivity].
    + apply IH.
Qed.

Lemma get_show_or_hide i r k (m : JsMap.t Tab) :
  JsMap.get k (map (show_or_hide i r) m)
  = option_map (fun t => snd (show_or_hide i r (k, t))) (JsMap.get k m).
Proof.
  induction m as [|[k' t'] m IH]; simpl; [reflexivity|].
  unfold show_or_hide at 1. simpl.
  destruct (k' =? i) eqn:Ei; simpl; destruct (Z.eqb_spec k' k) as [->|Hk];
    auto; unfold show_or_hide; simpl; now rewrite Ei.
Qed.

Lemma get_delete_other {V : Type} j k (m : JsMap.t V) :
  j <> k -> JsMap.get j (JsMap.delete k m) = JsMap.get j m.
Proof.
  intros Hne. induction m as [|[k' v'] m IH]; simpl; [reflexivity|].
  destruct (Z.eqb_spec k' k) as [->|Hk]; simpl.
  - destruct (Z.eqb_spec k j); [congruence | reflexivity].
  - now rewrite IH.
Qed.

Lemma delete_gone {V : Type} k (m : JsMap.t V) :
  ~ In k (JsMap.keys m) -> JsMap.delete k m = m.
Proof.
  induction m as [|[k' v'] m IH]; simpl; intros H; [reflexivity|].
  destruct (Z.eqb_spec k' k); [tauto|]. f_equal. apply IH. tauto.
Qed.

Lemma in_delete {V : Type} k (m : JsMap.t V) e :
  In e (JsMap.delete k m) -> In e m.
Proof.
  induction m as [|[k' v'] m IH]; simpl; [tauto|].
  destruct (k' =? k); simpl; tauto.
Qed.

(** [delete] takes out the entry [get] finds, and no other. *)
Lemma in_delete_or {V : Type} k (m : JsMap.t V) v e :
  JsMap.get k m = Some v -> In e m -> In e (JsMap.delete k m) \/ e = (k, v).
Proof.
  induction m as [|[k' v'] m IH]; simpl; [tauto|].
  destruct (Z.eqb_spec k' k) as [->|Hk].
  - intros [= ->] [<-|Hin]; auto.
  - intros Hg [<-|Hin]; simpl; [auto|]. destruct (IH Hg Hin); auto.
Qed.

Lemma get_set {V : Type} j k v (m : JsMap.t V) :
  JsMap.get j (JsMap.set k v m) = if j =? k then Some v else JsMap.get j m.
Proof.
  induction m as [|[k' v'] m IH]; simpl.
  - destruct (Z.eqb_spec k j) as [->|Hj]; [now rewrite Z.eqb_refl|].
    destruct (Z.eqb_spec j k); [congruence | reflexivity].
  - destruct (Z.eqb_spec k' k) as [->|Hk]; simpl.
    + destruct (Z.eqb_spec k j) as [->|Hj]; [now rewrite Z.eqb_refl|].
      destruct (Z.eqb_spec j k); [congruence | reflexivity].
    + destruct (Z.eqb_spec k' j) as [->|Hj]; [|apply IH].
      destruct (Z.eqb_spec j k); [congruence | reflexivity].
Qed.

(** *** Changes that leave the views alone *)

Lemma keeps_view_webContents f : keeps_view (with_view (on_webContents f)).
Proof. intros t. repeat split. Qed.

Lemma keeps_view_url u : keeps_view (with_url u).
Proof. intros t. repeat split. Qed.

Lemma keeps_view_title u : keeps_view (with_title u).
Proof. intros t. repeat split. Qed.

Lemma refs_modify k f (m : JsMap.t Tab) :
  keeps_view f -> map ref_of (JsMap.modify k f m) = map ref_of m.
Proof.
  intros Hf. unfold JsMap.modify. rewrite map_map. apply map_ext.
  intros [k' t]. unfold ref_of. simpl. destruct (k' =? k); [|reflexivity].
  simpl. apply Hf.
Qed.

Lemma visible_modify k f s :
  keeps_view f -> only_active_visible s ->
  only_active_visible (set_tabs (JsMap.modify k f (tabs s)) s).
Proof.
  intros Hf H. unfold only_active_visible in *. cbn [tabs set_tabs].
  unfold JsMap.modify. apply Forall_map.
  eapply Forall_impl; [|exact H]. intros [k' t] Ht. simpl in *.
  destruct (k' =? k); [|exact Ht]. simpl.
  destruct (Hf t) as (Hi & _ & Hv & _). rewrite Hv, Ht.
  unfold is_active. cbn [activeTabId set_tabs]. now rewrite Hi.
Qed.

Lemma laid_out_modify k f s :
  keeps_view f -> active_laid_out s ->
  active_laid_out (set_tabs (JsMap.modify k f (tabs s)) s).
Proof.
  intros Hf H a t w Ha Hg Hw. cbn [tabs set_tabs activeTabId mainWindow] in *.
  rewrite get_modify in Hg.
  change (getContentBounds (set_tabs (JsMap.modify k f (tabs s)) s))
    with (getContentBounds s).
  destruct (a =? k).
  - destruct (JsMap.get a (tabs s)) as [t0|] eqn:E; [|discriminate].
    injection Hg as <-. destruct (Hf t0) as (_ & Hr & _ & Hb).
    rewrite Hr, Hb. now apply (H a).
  - now apply (H a).
Qed.

Lemma distinct_modify k f s :
  keeps_view f -> distinct_views s ->
  distinct_views (set_tabs (JsMap.modify k f (tabs s)) s).
Proof.
  intros Hf [Hn Hb]. split; cbn [tabs set_tabs views].
  - now rewrite refs_modify.
  - rewrite Forall_forall in *. intros e He.
    assert (Hin : In (ref_of e) (map ref_of (JsMap.modify k f (tabs s))))
      by now apply in_map.
    rewrite refs_modify in Hin by assumption.
    apply in_map_iff in Hin. destruct Hin as (e0 & <- & He0). auto.
Qed.

Lemma Shown_modify k f s :
  keeps_view f -> Shown s -> Shown (set_tabs (JsMap.modify k f (tabs s)) s).
Proof.
  intros Hf [Hi Hw Hv Hl Hd]. constructor;
    auto using visible_modify, laid_out_modify, distinct_modify.
  apply (Inv_frame s); simpl; auto using keys_modify.
  - apply modify_Forall; [|apply Hi]. intros j v E. unfold id_in_place in *.
    simpl in *. destruct (Hf v) as [-> _]. exact E.
  - apply Hi.
Qed.

Lemma Shown_on_tab k f s : Shown s -> Shown (on_tab k f s).
Proof. apply Shown_modify, keeps_view_webContents. Qed.

(** A message more in the outbox changes nothing of the views. *)
Lemma Shown_send_opt m s : Shown s -> Shown (send_opt m s).
Proof.
  intros [Hi Hw Hv Hl Hd]. unfold send_opt.
  destruct (mainWindow s) as [w|] eqn:Ew; [|contradiction].
  constructor.
  - pose proof (send_opt_Inv m s Hi) as H. unfold send_opt in H.
    now rewrite Ew in H.
  - discriminate.
  - exact Hv.
  - intros a t w' Ha Hg [= <-]. cbn [tabs activeTabId set_mainWindow] in *.
    destruct (Hl a t w Ha Hg Ew) as [Hb Hc]. split; [|exact Hc].
    rewrite Hb. unfold getContentBounds. cbn [mainWindow set_mainWindow].
    now rewrite Ew.
  - exact Hd.
Qed.

(** *** [switchToTab] sets the views up *)

Lemma in_addChildView r r' w :
  In r (children w) \/ r = r' -> In r (children (addChildView r' w)).
Proof.
  unfold addChildView. cbn [children]. intros H. apply in_or_app.
  destruct (Nat.eq_dec r r') as [->|Hne]; [right; now left|].
  left. apply filter_In. split; [tauto|].
  apply negb_true_iff, Nat.eqb_neq. congruence.
Qed.

Lemma in_addChildView_inv r r' w :
  In r (children (addChildView r' w)) -> In r (children w) \/ r = r'.
Proof.
  unfold addChildView. cbn [children]. intros H. apply in_app_or in H.
  destruct H as [H|[->|[]]]; [|now right].
  apply filter_In in H. tauto.
Qed.

Lemma attach_keeps i w e r :
  In r (children w) -> In r (children (attach i w e)).
Proof.
  intros H. unfold attach. destruct (fst e =? i); [|assumption].
  destruct (includes _ _); [assumption|]. apply in_addChildView. now left.
Qed.

Lemma attach_adds i w e :
  fst e = i -> In (ref_of e) (children (attach i w e)).
Proof.
  intros <-. unfold attach. rewrite Z.eqb_refl.
  fold (ref_of e).
  destruct (includes (ref_of e) (children w)) eqn:E.
  - unfold includes in E. apply existsb_exists in E.
    destruct E as (c & Hc & Ec). apply Nat.eqb_eq in Ec. now subst c.
  - apply in_addChildView. now right.
Qed.

Lemma attach_only i w e r :
  In r (children (attach i w e)) ->
  In r (children w) \/ (fst e = i /\ ref_of e = r).
Proof.
  unfold attach. destruct (Z.eqb_spec (fst e) i) as [E|E]; [|now left].
  destruct (includes _ _); [now left|]. intros H.
  apply in_addChildView_inv in H. destruct H as [H| ->]; [now left|].
  right. now split.
Qed.

Lemma fold_attach_keeps i (m : JsMap.t Tab) r : forall w,
  In r (children w) -> In r (children (fold_left (attach i) m w)).
Proof.
  induction m as [|e m IH]; intros w H; simpl; [assumption|].
  now apply IH, attach_keeps.
Qed.

Lemma fold_attach_adds i (m : JsMap.t Tab) e : forall w,
  In e m -> fst e = i -> In (ref_of e) (children (fold_left (attach i) m w)).
Proof.
  induction m as [|e' m IH]; intros w Hin Hi; [contradiction|].
  destruct Hin as [<-|Hin]; simpl.
  - now apply fold_attach_keeps, attach_adds.
  - now apply IH.
Qed.

Lemma fold_attach_only i (m : JsMap.t Tab) r : forall w,
  In r (children (fold_left (attach i) m w)) ->
  In r (children w) \/ In r (map ref_of m).
Proof.
  induction m as [|e m IH]; intros w H; simpl in *; [now left|].
  destruct (IH _ H) as [H'|H']; [|tauto].
  destruct (attach_only _ _ _ _ H') as [Hc|[_ Hr]]; tauto.
Qed.

Lemma refs_show_or_hide i r (m : JsMap.t Tab) :
  map ref_of (map (show_or_hide i r) m) = map ref_of m.
Proof.
  rewrite map_map. apply map_ext. intros [k t]. unfold show_or_hide, ref_of.
  simpl. now destruct (k =? i).
Qed.

Lemma distinct_same_refs s s' :
  map ref_of (tabs s') = map ref_of (tabs s) -> views s' = views s ->
  distinct_views s -> distinct_views s'.
Proof.
  intros Er Ev [Hn Hb]. split; [now rewrite Er|]. rewrite Ev.
  rewrite Forall_forall in *. intros e He.
  assert (Hin : In (ref_of e) (map ref_of (tabs s'))) by now apply in_map.
  rewrite Er in Hin. apply in_map_iff in Hin.
  destruct Hin as (e0 & <- & He0). auto.
Qed.

(** Whatever the views were, switching to a tab of the map shows it
    alone, laid out and attached. *)
Lemma switchToTab_establishes i s :
  Inv s -> mainWindow s <> None -> distinct_views s ->
  In i (JsMap.keys (tabs s)) ->
  Shown (switchToTab i s).
Proof.
  intros Hi Hw Hd Hin.
  pose proof (switchToTab_Inv i s Hi) as Hi'.
  pose proof (switchToTab_window i s Hw) as Hw'.
  revert Hi' Hw'. unfold switchToTab.
  destruct (mainWindow s) as [w|] eqn:Ew; [|contradiction].
  destruct (in_keys_get _ _ Hin) as [t0 Hg]. rewrite Hg.
  intros Hi' Hw'. constructor; auto.
  - unfold only_active_visible. cbn [tabs]. apply Forall_map.
    eapply Forall_impl; [|exact (inv_ids _ Hi)].
    intros [k t] Ek. unfold id_in_place in Ek. simpl in Ek.
    unfold show_or_hide, is_active. cbn [activeTabId fst snd].
    destruct (k =? i) eqn:E; simpl; now rewrite Ek, E.
  - intros a t w' [= <-] Hga [= <-].
    cbn [tabs] in Hga. rewrite get_show_or_hide, Hg in Hga.
    injection Hga as <-. unfold show_or_hide. cbn [fst snd].
    rewrite Z.eqb_refl. cbn [snd with_view view setVisible setBounds bounds ref].
    split.
    + unfold getContentBounds. cbn [mainWindow send contentSize].
      rewrite Ew. now destruct (fold_attach_contentSize i (tabs s) w) as [-> _].
    + cbn [send children].
      apply (fold_attach_adds i (tabs s) (i, t0)); [now apply get_in | reflexivity].
  - apply (distinct_same_refs s); [apply refs_show_or_hide | reflexivity | assumption].
Qed.

Lemma Shown_switchToTab i s : Shown s -> Shown (switchToTab i s).
Proof.
  intros H. destruct (JsMap.get i (tabs s)) as [t|] eqn:E.
  - destruct H as [Hi Hw Hv Hl Hd].
    apply switchToTab_establishes; auto. eauto using get_in_keys.
  - now rewrite switchToTab_unknown.
Qed.

(** *** [createTab] *)

Lemma in_refs_set k t (m : JsMap.t Tab) r :
  In r (map ref_of (JsMap.set k t m)) ->
  r = ref (view t) \/ In r (map ref_of m).
Proof.
  induction m as [|[k' t'] m IH]; simpl.
  - intros [<-|[]]. now left.
  - destruct (k' =? k); simpl; intros [<-|H]; auto.
    destruct (IH H); auto.
Qed.

Lemma NoDup_refs_set k t (m : JsMap.t Tab) :
  NoDup (map ref_of m) -> ~ In (ref (view t)) (map ref_of m) ->
  NoDup (map ref_of (JsMap.set k t m)).
Proof.
  induction m as [|[k' t'] m IH]; simpl; intros Hn Hout.
  - constructor; [tauto | constructor].
  - apply NoDup_cons_iff in Hn. destruct Hn as [Hh Hn].
    destruct (k' =? k); simpl; constructor; auto.
    intros Hin. apply in_refs_set in Hin.
    unfold ref_of in Hout at 1. simpl in Hout. destruct Hin as [E|Hin]; auto.
Qed.

Lemma Forall_set (P : Z * Tab -> Prop) k t (m : JsMap.t Tab) :
  Forall P m -> P (k, t) -> Forall P (JsMap.set k t m).
Proof. apply set_Forall. Qed.

Lemma Shown_createTab u s : Shown s -> Shown (fst (createTab u s)).
Proof.
  intros [Hi Hw Hv Hl [Hn Hb]]. unfold createTab. cbv zeta. cbn [fst].
  apply Shown_send_opt.
  set (tab := {| id := nextTabId s; view := new_WebContentsView (views s);
                 url := u; title := lit "New Tab" |}).
  set (s1 := {| mainWindow := mainWindow s;
                tabs := JsMap.set (nextTabId s) tab (tabs s);
                activeTabId := activeTabId s;
                nextTabId := incr (nextTabId s);
                views := S (views s) |}).
  assert (Hi1 : Inv s1) by now apply registered_Inv.
  assert (Hd1 : distinct_views s1).
  { split; cbn [tabs views s1].
    - apply NoDup_refs_set; [assumption|]. cbn [view tab ref new_WebContentsView].
      intros Hin. apply in_map_iff in Hin. destruct Hin as (e & Ee & He).
      rewrite Forall_forall in Hb. specialize (Hb e He). lia.
    - apply Forall_set.
      + eapply Forall_impl; [|exact Hb]. cbv beta. intros e He. lia.
      + unfold ref_of. cbn. lia. }
  assert (Hk1 : In (nextTabId s) (JsMap.keys (tabs s1))).
  { cbn [tabs s1]. eapply get_in_keys, get_set_same. }
  destruct (truthy u).
  - apply switchToTab_establishes.
    + now apply on_tab_Inv.
    + exact Hw.
    + apply distinct_modify; [apply keeps_view_webContents | exact Hd1].
    + cbn [tabs on_tab set_tabs]. now rewrite keys_modify.
  - now apply switchToTab_establishes.
Qed.

(** *** [closeTab] *)

Lemma NoDup_refs_delete k (m : JsMap.t Tab) :
  NoDup (map ref_of m) -> NoDup (map ref_of (JsMap.delete k m)).
Proof.
  induction m as [|[k' t'] m IH]; simpl; intros Hn; [constructor|].
  apply NoDup_cons_iff in Hn. destruct Hn as [Hh Hn].
  destruct (k' =? k); simpl; [assumption|].
  constructor; [|auto]. intros Hin. apply Hh.
  apply in_map_iff in Hin. destruct Hin as (e & Ee & He).
  apply in_map_iff. exists e. split; [assumption|]. eauto using in_delete.
Qed.

Lemma NoDup_map_eq {A B : Type} (f : A -> B) (l : list A) x y :
  NoDup (map f l) -> In x l -> In y l -> f x = f y -> x = y.
Proof.
  induction l as [|a l IH]; simpl; intros Hn Hx Hy E; [contradiction|].
  apply NoDup_cons_iff in Hn. destruct Hn as [Hh Hn].
  destruct Hx as [->|Hx]; destruct Hy as [->|Hy]; auto.
  - exfalso. apply Hh. rewrite E. now apply in_map.
  - exfalso. apply Hh. rewrite <- E. now apply in_map.
Qed.

Lemma distinct_remove_tab i t w s :
  distinct_views s -> distinct_views (remove_tab i t w s).
Proof.
  intros [Hn Hb]. split; cbn [remove_tab tabs views set_tabs on_tab set_mainWindow].
  - apply NoDup_refs_delete. rewrite refs_modify; [assumption|].
    apply keeps_view_webContents.
  - apply delete_Forall.
    apply (proj2 (distinct_modify i (with_view (on_webContents (request close)))
                    s (keeps_view_webContents _) (conj Hn Hb))).
Qed.

Lemma Shown_closeTab i s : Shown s -> Shown (closeTab i s).
Proof.
  intros H. destruct H as [Hi Hw Hv Hl Hd]. unfold closeTab.
  destruct (JsMap.get i (tabs s)) as [t|] eqn:Eg; [|now constructor].
  destruct (mainWindow s) as [w|] eqn:Ew; [|contradiction].
  apply Shown_send_opt.
  pose proof (distinct_remove_tab i t w s Hd) as Hd1.
  pose proof (remove_tab_Inv i t w s None Hi (or_introl eq_refl)) as Hi0.
  unfold fall_back.
  change (activeTabId (remove_tab i t w s)) with (activeTabId s).
  assert (Hother : activeTabId s <> Some i -> Shown (remove_tab i t w s)).
  { intros Hne.
    pose proof (remove_tab_Inv i t w s (activeTabId s) Hi
                  (or_intror (conj eq_refl Hne))) as Hi1.
    constructor.
    - exact Hi1.
    - discriminate.
    - unfold only_active_visible.
      cbn [remove_tab tabs set_tabs on_tab set_mainWindow].
      apply delete_Forall.
      apply (visible_modify i _ s (keeps_view_webContents _) Hv).
    - intros a t' w' Ha Hg [= <-].
      cbn [remove_tab tabs set_tabs on_tab set_mainWindow activeTabId] in Ha, Hg.
      assert (Hai : a <> i) by congruence.
      rewrite get_delete_other, get_modify in Hg by assumption.
      destruct (Z.eqb_spec a i); [contradiction|].
      destruct (Hl a t' w Ha Hg Ew) as [Hb Hc]. split.
      + rewrite Hb. unfold getContentBounds.
        cbn [remove_tab mainWindow set_tabs on_tab set_mainWindow].
        now rewrite Ew.
      + cbn [removeChildView children]. apply filter_In. split; [assumption|].
        apply negb_true_iff, Nat.eqb_neq. intros E.
        apply Hai.
        assert (Ee : (i, t) = (a, t')).
        { exact (NoDup_map_eq ref_of (tabs s) (i, t) (a, t') (proj1 Hd)
                   (get_in _ _ _ Eg) (get_in _ _ _ Hg) E). }
        congruence.
    - exact Hd1. }
  destruct (activeTabId s) as [a|] eqn:Ea; [|apply Hother; discriminate].
  destruct (Z.eqb_spec a i) as [->|Hne]; [|apply Hother; congruence].
  destruct (JsMap.keys (tabs (remove_tab i t w s))) as [|k0 rest] eqn:Ek.
  - simpl. constructor.
    + exact Hi0.
    + discriminate.
    + unfold only_active_visible. cbn [tabs set_activeTabId].
      apply map_eq_nil in Ek. rewrite Ek. constructor.
    + intros a t' w' Ha. discriminate.
    + exact Hd1.
  - replace (0 <? Z.of_nat (List.length (k0 :: rest))) with true
      by (symmetry; apply Z.ltb_lt; simpl List.length; lia).
    destruct (last_of_in (k0 :: rest)) as (k & -> & Hk); [discriminate|].
    rewrite (switchToTab_forgets_active k None);
      [|discriminate | now rewrite Ek].
    apply switchToTab_establishes; [exact Hi0 | discriminate | exact Hd1|].
    cbn [tabs set_activeTabId]. now rewrite Ek.
Qed.

(** *** The other handlers, and [resize] *)

Lemma Shown_navigate u s : Shown s -> Shown (fst (navigate u s)).
Proof.
  intros H. unfold navigate. destruct (activeTabId s) as [a|].
  - destruct (JsMap.get a (tabs s)); cbn [fst]; auto using Shown_on_tab.
  - cbn [fst]. now apply Shown_createTab.
Qed.

Lemma Shown_execute_action a page s :
  Shown s -> Shown (fst (execute_action a page s)).
Proof.
  intros H. unfold execute_action.
  destruct (activeTabId s) as [act|]; [|assumption].
  destruct (JsMap.get act (tabs s)); [|assumption].
  split_cases; cbn [fst]; auto using Shown_on_tab.
Qed.

Lemma Shown_did_navigate i u s : Shown s -> Shown (did_navigate i u s).
Proof.
  intros H. unfold did_navigate. destruct (JsMap.get i (tabs s)); [|assumption].
  apply Shown_send_opt, Shown_modify; [apply keeps_view_url | assumption].
Qed.

Lemma Shown_page_title_updated i u s :
  Shown s -> Shown (page_title_updated i u s).
Proof.
  intros H. unfold page_title_updated.
  destruct (JsMap.get i (tabs s)); [|assumption].
  apply Shown_send_opt, Shown_modify; [apply keeps_view_title | assumption].
Qed.

Lemma Shown_resize size s : Shown s -> Shown (resize size s).
Proof.
  intros H. pose proof (resize_Inv size s (shown_Inv _ H)) as Hi'.
  destruct H as [Hi Hw Hv Hl Hd]. revert Hi'. unfold resize.
  destruct (mainWindow s) as [w|] eqn:Ew; [|contradiction].
  cbn [activeTabId set_mainWindow tabs].
  set (s1 := set_mainWindow (Some (set_contentSize size w)) s).
  assert (Hframe : forall m f,
            (forall t0, id (f t0) = id t0 /\ ref (view (f t0)) = ref (view t0)
                        /\ visible (view (f t0)) = visible (view t0)) ->
            only_active_visible (set_tabs (JsMap.modify m f (tabs s)) s1)
            /\ distinct_views (set_tabs (JsMap.modify m f (tabs s)) s1)).
  { intros m f Hf. split.
    - unfold only_active_visible in *. cbn [tabs set_tabs].
      unfold JsMap.modify. apply Forall_map.
      eapply Forall_impl; [|exact Hv]. intros [k' t'] Ht. simpl in *.
      destruct (k' =? m); [|exact Ht]. simpl.
      destruct (Hf t') as (Hi0 & _ & Hv0). rewrite Hv0, Ht.
      unfold is_active. cbn [activeTabId set_tabs set_mainWindow s1].
      now rewrite Hi0.
    - apply (distinct_same_refs s); [|reflexivity|assumption].
      cbn [tabs set_tabs]. unfold JsMap.modify. rewrite map_map.
      apply map_ext. intros [k' t']. unfold ref_of. simpl.
      destruct (k' =? m); [|reflexivity]. simpl. apply Hf. }
  destruct (activeTabId s) as [a|] eqn:Ea.
  - destruct (JsMap.get a (tabs s)) as [t0|] eqn:Eg.
    + intros Hi'.
      destruct (Hframe a (with_view (setBounds (getContentBounds s1))))
        as [Hv' Hd']; [intros t1; repeat split|].
      constructor; auto; [discriminate|].
      intros b t' w' Hb Hg [= <-].
      cbn [activeTabId set_tabs set_mainWindow s1 tabs] in Hb, Hg.
      assert (b = a) by congruence. subst b.
      rewrite get_modify, Z.eqb_refl, Eg in Hg. injection Hg as <-.
      split; [reflexivity|].
      cbn [with_view view setBounds ref set_contentSize children].
      now apply (Hl a t0 w).
    + intros Hi'. constructor; auto; [discriminate|].
      intros b t' w' Hb Hg. cbn [activeTabId set_mainWindow s1 tabs] in Hb, Hg.
      congruence.
  - intros Hi'. constructor; auto; [discriminate|].
    intros b t' w' Hb. cbn [activeTabId set_mainWindow s1] in Hb. congruence.
Qed.

Lemma Shown_handle e s : Shown s -> Shown (handle e s).
Proof.
  intros H. destruct e as [op|width height]; [|now apply Shown_resize].
  unfold handle. rewrite fst_step.
  destruct op;
    auto using Shown_createTab, Shown_switchToTab, Shown_closeTab,
      Shown_navigate, Shown_execute_action, Shown_did_navigate,
      Shown_page_title_updated.
Qed.

Lemma Shown_initial w : Shown (initial (Some w)).
Proof.
  constructor.
  - apply initial_Inv.
  - discriminate.
  - constructor.
  - intros a t w' Ha. discriminate.
  - split; constructor.
Qed.

Lemma Shown_after evs : forall s, Shown s -> Shown (after evs s).
Proof.
  induction evs as [|e evs IH]; intros s H; [exact H|].
  rewrite after_cons. apply IH. now apply Shown_handle.
Qed.

(** *** No child of the content view without a tab *)

Lemma set_not_in {V : Type} k v (m : JsMap.t V) :
  ~ In k (JsMap.keys m) -> JsMap.set k v m = m ++ [(k, v)].
Proof.
  induction m as [|[k' v'] m IH]; simpl; intros H; [reflexivity|].
  destruct (Z.eqb_spec k' k); [tauto|]. f_equal. apply IH. tauto.
Qed.

(** Below [2^53] the counter is no key of the map. *)
Lemma next_not_in s :
  Inv s -> nextTabId s < two53 -> ~ In (nextTabId s) (JsMap.keys (tabs s)).
Proof.
  intros H Hlt Hin. pose proof (inv_keys _ H) as Hk.
  rewrite Forall_forall in Hk. destruct (Hk _ Hin) as [Hl|[_ E]]; lia.
Qed.

Lemma owned_send_opt m s : children_owned s -> children_owned (send_opt m s).
Proof.
  intros H w r. unfold send_opt. destruct (mainWindow s) as [w0|] eqn:Ew.
  - cbn [mainWindow set_mainWindow tabs]. intros [= <-]. cbn [send children].
    now apply H.
  - rewrite Ew. discriminate.
Qed.

Lemma owned_modify k f s :
  keeps_view f -> children_owned s ->
  children_owned (set_tabs (JsMap.modify k f (tabs s)) s).
Proof.
  intros Hf H w r Hw Hr. cbn [tabs set_tabs mainWindow] in *.
  rewrite refs_modify by assumption. now apply (H w).
Qed.

Lemma owned_switchToTab i s :
  children_owned s -> children_owned (switchToTab i s).
Proof.
  intros H. unfold switchToTab. destruct (mainWindow s) as [w|] eqn:Ew; [|assumption].
  destruct (JsMap.get i (tabs s)); [|assumption].
  intros w' r [= <-]. cbn [send children tabs]. rewrite refs_show_or_hide.
  intros Hr. destruct (fold_attach_only _ _ _ _ Hr); [now apply (H w) | assumption].
Qed.

Lemma owned_createTab u s :
  Inv s -> nextTabId s < two53 ->
  children_owned s -> children_owned (fst (createTab u s)).
Proof.
  intros Hi Hlt H. unfold createTab. cbv zeta. cbn [fst].
  apply owned_send_opt, owned_switchToTab.
  set (tab := {| id := nextTabId s; view := new_WebContentsView (views s);
                 url := u; title := lit "New Tab" |}).
  assert (H1 : children_owned
                 {| mainWindow := mainWindow s;
                    tabs := JsMap.set (nextTabId s) tab (tabs s);
                    activeTabId := activeTabId s;
                    nextTabId := incr (nextTabId s);
                    views := S (views s) |}).
  { intros w r Hw Hr. cbn [mainWindow tabs] in *.
    rewrite set_not_in by now apply next_not_in.
    rewrite map_app. apply in_or_app. left. now apply (H w). }
  destruct (truthy u); [|exact H1].
  apply owned_modify; [apply keeps_view_webContents | exact H1].
Qed.

Lemma owned_remove_tab i t w s :
  JsMap.get i (tabs s) = Some t -> mainWindow s = Some w ->
  children_owned s -> children_owned (remove_tab i t w s).
Proof.
  intros Hg Hw H w' r [= <-].
  cbn [remove_tab tabs set_tabs on_tab set_mainWindow removeChildView children].
  intros Hr. apply filter_In in Hr. destruct Hr as [Hr Hne].
  apply negb_true_iff, Nat.eqb_neq in Hne.
  pose proof (H w r Hw Hr) as Hin.
  rewrite <- (refs_modify i (with_view (on_webContents (request close))))
    in Hin by apply keeps_view_webContents.
  apply in_map_iff in Hin. destruct Hin as (e & Ee & He).
  apply in_map_iff. exists e. split; [assumption|].
  assert (Hg' : JsMap.get i
                  (JsMap.modify i (with_view (on_webContents (request close)))
                     (tabs s))
                = Some (with_view (on_webContents (request close)) t))
    by now rewrite get_modify, Z.eqb_refl, Hg.
  destruct (in_delete_or i _ _ e Hg' He) as [Hd|Hd]; [assumption|].
  subst e. unfold ref_of in Ee. simpl in Ee. congruence.
Qed.

Lemma owned_closeTab i s : children_owned s -> children_owned (closeTab i s).
Proof.
  intros H. unfold closeTab.
  destruct (JsMap.get i (tabs s)) as [t|] eqn:Eg; [|assumption].
  destruct (mainWindow s) as [w|] eqn:Ew; [|assumption].
  apply owned_send_opt.
  pose proof (owned_remove_tab i t w s Eg Ew H) as H1.
  unfold fall_back. split_cases; auto using owned_switchToTab.
Qed.

Lemma owned_handle e s :
  Inv s -> nextTabId s < two53 ->
  children_owned s -> children_owned (handle e s).
Proof.
  intros Hi Hlt H. destruct e as [op|width height].
  - unfold handle. rewrite fst_step. destruct op as [u|i|i|u|a page|i u|i u].
    + now apply owned_createTab.
    + now apply owned_switchToTab.
    + now apply owned_closeTab.
    + unfold navigate. destruct (activeTabId s) as [a|].
      * destruct (JsMap.get a (tabs s)); cbn [fst]; [|assumption].
        apply owned_modify; [apply keeps_view_webContents | assumption].
      * cbn [fst]. now apply owned_createTab.
    + unfold execute_action.
      destruct (activeTabId s) as [act|]; [|assumption].
      destruct (JsMap.get act (tabs s)); [|assumption].
      split_cases; cbn [fst]; try assumption;
        (apply owned_modify; [apply keeps_view_webContents | assumption]).
    + unfold did_navigate. destruct (JsMap.get i (tabs s)); [|assumption].
      apply owned_send_opt, owned_modify; [apply keeps_view_url | assumption].
    + unfold page_title_updated. destruct (JsMap.get i (tabs s)); [|assumption].
      apply owned_send_opt, owned_modify; [apply keeps_view_title | assumption].
  - unfold handle, resize. destruct (mainWindow s) as [w|] eqn:Ew; [|assumption].
    cbn [activeTabId set_mainWindow tabs].
    assert (H1 : children_owned (set_mainWindow (Some (set_contentSize (width, height) w)) s)).
    { intros w' r [= <-]. cbn [set_contentSize children tabs set_mainWindow].
      now apply (H w). }
    destruct (activeTabId s) as [a|]; [|exact H1].
    destruct (JsMap.get a (tabs s)); [|exact H1].
    intros w' r [= <-]. cbn [set_contentSize children tabs set_tabs].
    unfold JsMap.modify. rewrite map_map.
    intros Hr. pose proof (H w r Ew Hr) as Hin.
    erewrite map_ext; [exact Hin|].
    intros [k t']. unfold ref_of. simpl. now destruct (k =? a).
Qed.

Lemma owned_after evs : forall s,
  Inv s -> nextTabId s + Z.of_nat (List.length evs) <= two53 ->
  children_owned s -> children_owned (after evs s).
Proof.
  induction evs as [|e evs IH]; intros s Hi Hlen H; [exact H|].
  rewrite after_cons. change (List.length (e :: evs)) with (S (List.length evs)) in Hlen.
  apply IH.
  - now apply handle_Inv.
  - pose proof (inv_next _ Hi) as Hn.
    destruct (handle_next e s Hi) as [E|E]; rewrite E; [lia|].
    unfold incr. destruct (nextTabId s <? two53); lia.
  - apply owned_handle; [assumption | lia | assumption].
Qed.

Lemma in_get {V : Type} k v (m : JsMap.t V) :
  StronglySorted Z.lt (JsMap.keys m) -> In (k, v) m -> JsMap.get k m = Some v.
Proof.
  induction m as [|[k' v'] m IH]; simpl; intros Hs Hin; [contradiction|].
  apply StronglySorted_inv in Hs. destruct Hs as [Hs Hf].
  destruct Hin as [[= -> ->]|Hin]; [now rewrite Z.eqb_refl|].
  destruct (Z.eqb_spec k' k) as [->|Hne]; [|auto].
  exfalso. rewrite Forall_forall in Hf.
  assert (Hk : In k (JsMap.keys m)) by (apply in_map_iff; now exists (k, v)).
  specialize (Hf _ Hk). lia.
Qed.

End LayoutFacts.

(* ------------------------------------------------------------------ *)
(** ** The views of a window *)

Module Views.

Import Js.
Import Electron.
Import Main.
Import Invariant.
Import JsMapFacts.
Import MainFacts.
Import Window.
Import WindowFacts.
Import Layout.
Import LayoutFacts.
Import Session.

Lemma Shown_run w evs : Shown (after evs (initial (Some w))).
Proof. apply Shown_after, Shown_initial. Qed.

(** X1 (one view shown).  Whatever requests, page events and resizes a
    window has handled since no tab existed, the view of a tab is
    visible exactly when the tab is the active one. *)
Theorem visible_iff_active (w : BrowserWindow) (evs : list Event) (k : Z)
    (t : Tab) :
  JsMap.get k (tabs (after evs (initial (Some w)))) = Some t ->
  visible (view t) = true
  <-> activeTabId (after evs (initial (Some w))) = Some k.
Proof.
  pose proof (Shown_run w evs) as H.
  set (s := after evs (initial (Some w))) in *.
  intros Hg. apply get_in in Hg.
  pose proof (shown_visible _ H) as Hv. unfold only_active_visible in Hv.
  rewrite Forall_forall in Hv. specialize (Hv _ Hg). cbn [snd] in Hv.
  pose proof (inv_ids _ (shown_Inv _ H)) as Hi.
  rewrite Forall_forall in Hi. specialize (Hi _ Hg).
  unfold id_in_place in Hi. cbn [fst snd] in Hi.
  rewrite Hv. unfold is_active. destruct (activeTabId s) as [a|].
  - rewrite Hi, Z.eqb_eq. split; congruence.
  - split; discriminate.
Qed.

Lemma visible_iff_active_witness :
  JsMap.get 1 (tabs (after two_tabs_resized (initial (Some Scenario.window))))
  = Some {| id := 1;
            view := {| ref := 0; visible := false;
                       bounds := {| x := 0; y := 80; width := 1280; height := 820 |};
                       webContents := {| requests := [] |} |};
            url := []; title := lit "New Tab" |}
  /\ (false = true
      <-> activeTabId (after two_tabs_resized (initial (Some Scenario.window)))
          = Some 1).
Proof.
  split; [reflexivity|].
  exact (visible_iff_active Scenario.window two_tabs_resized 1 _ eq_refl).
Defined.

(** X2 (the active view fills the window).  In every such state the
    active tab is in the map, and its view is a child of the content
    view of the window and has the bounds [getContentBounds] gives for
    the present size of the window: all of it below the top 80
    pixels. *)
Theorem active_view_laid_out (w : BrowserWindow) (evs : list Event) (a : Z) :
  activeTabId (after evs (initial (Some w))) = Some a ->
  exists t w',
    JsMap.get a (tabs (after evs (initial (Some w)))) = Some t
    /\ mainWindow (after evs (initial (Some w))) = Some w'
    /\ bounds (view t)
       = {| x := 0; y := 80; width := fst (contentSize w');
            height := snd (contentSize w') - 80 |}
    /\ In (ref (view t)) (children w').
Proof.
  pose proof (Shown_run w evs) as H.
  set (s := after evs (initial (Some w))) in *.
  intros Ha.
  destruct (inv_active _ (shown_Inv _ H) _ Ha) as [Hin _].
  destruct (in_keys_get _ _ Hin) as [t Hg].
  destruct (mainWindow s) as [w'|] eqn:Ew; [|now destruct (shown_window _ H)].
  exists t, w'. split; [assumption|]. split; [reflexivity|].
  destruct (shown_laid_out _ H a t w' Ha Hg Ew) as [Hb Hc].
  split; [|assumption]. rewrite Hb. unfold getContentBounds. rewrite Ew.
  now destruct (contentSize w').
Qed.

Lemma active_view_laid_out_witness :
  activeTabId (after two_tabs_resized (initial (Some Scenario.window))) = Some 2
  /\ exists t w',
       JsMap.get 2 (tabs (after two_tabs_resized (initial (Some Scenario.window))))
       = Some t
       /\ mainWindow (after two_tabs_resized (initial (Some Scenario.window)))
          = Some w'
       /\ bounds (view t)
          = {| x := 0; y := 80; width := fst (contentSize w');
               height := snd (contentSize w') - 80 |}
       /\ In (ref (view t)) (children w').
Proof.
  split; [reflexivity|].
  exact (active_view_laid_out Scenario.window two_tabs_resized 2 eq_refl).
Defined.

(** X3 (no stray view).  Starting from a window without children, and
    over fewer than [2^53] events, every child of the content view is
    the view of a tab of the map: the view of a closed tab does not stay
    attached. *)
Theorem attached_views_are_tabs (w : BrowserWindow) (evs : list Event)
    (w' : BrowserWindow) (r : nat) :
  children w = [] ->
  Z.of_nat (List.length evs) < two53 ->
  mainWindow (after evs (initial (Some w))) = Some w' ->
  In r (children w') ->
  exists k t,
    JsMap.get k (tabs (after evs (initial (Some w)))) = Some t
    /\ ref (view t) = r.
Proof.
  intros Hc Hlen Hw Hr.
  assert (H : children_owned (after evs (initial (Some w)))).
  { apply owned_after.
    - apply initial_Inv.
    - change (nextTabId (initial (Some w))) with 1. lia.
    - intros w0 r0 [= <-]. rewrite Hc. contradiction. }
  specialize (H w' r Hw Hr). apply in_map_iff in H.
  destruct H as ([k t] & E & Hin). exists k, t. split; [|exact E].
  apply in_get; [|assumption].
  apply (inv_sorted _ (shown_Inv _ (Shown_run w evs))).
Qed.

Lemma attached_views_are_tabs_witness :
  children Scenario.window = []
  /\ Z.of_nat (List.length browsing) < two53
  /\ mainWindow (after browsing (initial (Some Scenario.window)))
     = Some browsing_window
  /\ In 2%nat (children browsing_window)
  /\ exists k t,
       JsMap.get k (tabs (after browsing (initial (Some Scenario.window)))) = Some t
       /\ ref (view t) = 2%nat.
Proof.
  assert (Hlen : Z.of_nat (List.length browsing) < two53) by reflexivity.
  assert (Hw : mainWindow (after browsing (initial (Some Scenario.window)))
               = Some browsing_window) by (vm_compute; reflexivity).
  assert (Hin : In 2%nat (children browsing_window)) by (vm_compute; tauto).
  split; [reflexivity|]. split; [exact Hlen|]. split; [exact Hw|].
  split; [exact Hin|].
  exact (attached_views_are_tabs Scenario.window browsing browsing_window 2%nat
           eq_refl Hlen Hw Hin).
Defined.

End Views.

(* ------------------------------------------------------------------ *)
(** ** ['get-tabs'] and the messages, handler by handler *)

Module TabListFacts.

Import Js.
Import Electron.
Import Main.
Import Invariant.
Import JsMapFacts.
Import MainFacts.
Import Window.
Import WindowFacts.
Import Layout.
Import LayoutFacts.

Lemma get_tabs_info s :
  get_tabs s = map (info (activeTabId s)) (JsMap.values (tabs s)).
Proof. reflexivity. Qed.

Lemma mark_info i a t : mark i (info a t) = info (Some i) t.
Proof. reflexivity. Qed.

Lemma info_modify a k f (m : JsMap.t Tab) :
  (forall t, info a (f t) = info a t) ->
  map (info a) (JsMap.values (JsMap.modify k f m))
  = map (info a) (JsMap.values m).
Proof.
  intros Hf. unfold JsMap.values, JsMap.modify. rewrite !map_map.
  apply map_ext. intros [k' t]. simpl. destruct (k' =? k); simpl; auto.
Qed.

Lemma info_show_or_hide a i r (m : JsMap.t Tab) :
  map (info a) (JsMap.values (map (show_or_hide i r) m))
  = map (info a) (JsMap.values m).
Proof.
  unfold JsMap.values. rewrite !map_map. apply map_ext.
  intros [k t]. unfold show_or_hide. simpl. now destruct (k =? i).
Qed.

Lemma info_delete a k (m : JsMap.t Tab) :
  Forall id_in_place m -> StronglySorted Z.lt (JsMap.keys m) ->
  map (info a) (JsMap.values (JsMap.delete k m))
  = filter (fun e => negb (TabInfo.id e =? k)) (map (info a) (JsMap.values m)).
Proof.
  induction m as [|[k' t'] m IH]; simpl; intros Hi Hs; [reflexivity|].
  apply Forall_cons_iff in Hi. destruct Hi as [Hk Hi].
  unfold id_in_place in Hk. simpl in Hk.
  apply StronglySorted_inv in Hs. destruct Hs as [Hs Hf].
  rewrite Hk. destruct (Z.eqb_spec k' k) as [->|Hne]; simpl.
  - symmetry. rewrite <- (IH Hi Hs). f_equal. f_equal.
    apply delete_gone. intros Hin. rewrite Forall_forall in Hf.
    specialize (Hf _ Hin). lia.
  - f_equal. now apply IH.
Qed.

Lemma get_tabs_on_tab k f s : get_tabs (on_tab k f s) = get_tabs s.
Proof.
  rewrite !get_tabs_info. cbn [on_tab set_tabs tabs activeTabId].
  now apply info_modify.
Qed.

Lemma get_tabs_send_opt m s : get_tabs (send_opt m s) = get_tabs s.
Proof. unfold send_opt. now destruct (mainWindow s). Qed.

Lemma outbox_send_opt m s :
  mainWindow s <> None -> outbox (send_opt m s) = outbox s ++ [m].
Proof.
  intros Hw. unfold send_opt, outbox.
  destruct (mainWindow s) as [w|]; [reflexivity | contradiction].
Qed.

(** *** [switchToTab] *)

Lemma switchToTab_get_tabs i s :
  mainWindow s <> None -> In i (JsMap.keys (tabs s)) ->
  get_tabs (switchToTab i s) = map (mark i) (get_tabs s)
  /\ outbox (switchToTab i s) = outbox s ++ [tab_switched i].
Proof.
  intros Hw Hin. unfold switchToTab, outbox.
  destruct (mainWindow s) as [w|] eqn:Ew; [|contradiction].
  destruct (in_keys_get _ _ Hin) as [t ->]. split.
  - rewrite !get_tabs_info. cbn [tabs activeTabId].
    rewrite info_show_or_hide, map_map. apply map_ext. intros t0.
    now rewrite mark_info.
  - cbn [mainWindow send sent].
    now destruct (fold_attach_contentSize i (tabs s) w) as [_ ->].
Qed.

Lemma switchToTab_tabs i s :
  mainWindow s <> None -> In i (JsMap.keys (tabs s)) ->
  tabs (switchToTab i s) = map (show_or_hide i (getContentBounds s)) (tabs s).
Proof.
  intros Hw Hin. unfold switchToTab.
  destruct (mainWindow s) as [w|]; [|contradiction].
  now destruct (in_keys_get _ _ Hin) as [t ->].
Qed.

(** *** [createTab] *)

Lemma createTab_get_tabs u s :
  Inv s -> mainWindow s <> None -> nextTabId s < two53 ->
  get_tabs (fst (createTab u s))
  = map (mark (nextTabId s)) (get_tabs s)
    ++ [{| TabInfo.id := nextTabId s; TabInfo.url := u;
           TabInfo.title := lit "New Tab"; TabInfo.active := true |}]
  /\ outbox (fst (createTab u s))
     = outbox s ++ [tab_switched (nextTabId s);
                    tab_created (nextTabId s) u (lit "New Tab")].
Proof.
  intros Hi Hw Hlt. unfold createTab. cbv zeta. cbn [fst].
  set (tab := {| id := nextTabId s; view := new_WebContentsView (views s);
                 url := u; title := lit "New Tab" |}).
  set (s1 := {| mainWindow := mainWindow s;
                tabs := JsMap.set (nextTabId s) tab (tabs s);
                activeTabId := activeTabId s;
                nextTabId := incr (nextTabId s);
                views := S (views s) |}).
  set (s2 := if truthy u then on_tab (nextTabId s) (request (loadURL (fullUrl u))) s1
             else s1).
  assert (Hw2 : mainWindow s2 = mainWindow s) by (subst s2; now destruct (truthy u)).
  assert (Hg2 : get_tabs s2 = get_tabs s1).
  { subst s2. destruct (truthy u); [apply get_tabs_on_tab | reflexivity]. }
  assert (Hk2 : In (nextTabId s) (JsMap.keys (tabs s2))).
  { subst s2. destruct (truthy u); cbn [tabs on_tab set_tabs s1];
      rewrite ?keys_modify; eapply get_in_keys, get_set_same. }
  assert (Hw2' : mainWindow s2 <> None) by now rewrite Hw2.
  destruct (switchToTab_get_tabs (nextTabId s) s2 Hw2' Hk2) as [Eg Eo].
  split.
  - rewrite get_tabs_send_opt, Eg, Hg2. rewrite (get_tabs_info s1).
    cbn [tabs activeTabId s1]. rewrite set_not_in by now apply next_not_in.
    unfold JsMap.values. rewrite !map_app, map_map. cbn [map snd].
    f_equal.
    + rewrite get_tabs_info. unfold JsMap.values. rewrite !map_map.
      apply map_ext. intros e. now rewrite mark_info.
    + unfold mark, info, tab. cbn [TabInfo.id id url title].
      now rewrite Z.eqb_refl.
  - rewrite outbox_send_opt by now apply switchToTab_window.
    rewrite Eo. unfold outbox. rewrite Hw2. now rewrite <- app_assoc.
Qed.

(** *** [closeTab] *)

Lemma remove_tab_get_tabs i t w s a :
  Inv s ->
  get_tabs (set_activeTabId a (remove_tab i t w s))
  = filter (fun e => negb (TabInfo.id e =? i))
      (map (info a) (JsMap.values (tabs s))).
Proof.
  intros Hi. rewrite get_tabs_info.
  cbn [activeTabId set_activeTabId tabs remove_tab set_tabs on_tab set_mainWindow].
  rewrite info_delete.
  - now rewrite info_modify.
  - apply ids_modify_view, Hi.
  - rewrite keys_modify. apply Hi.
Qed.

Lemma filter_mark i k (l : list TabInfo) :
  filter (fun e => negb (TabInfo.id e =? i)) (map (mark k) l)
  = map (mark k) (filter (fun e => negb (TabInfo.id e =? i)) l).
Proof.
  induction l as [|e l IH]; simpl; [reflexivity|].
  destruct (TabInfo.id e =? i); simpl; now rewrite IH.
Qed.

(** Closing a tab of the map, with a window: the entry goes; when it
    was the active one, the marks follow the tab the program switches
    to. *)
Lemma closeTab_get_tabs i s :
  Inv s -> mainWindow s <> None -> In i (JsMap.keys (tabs s)) ->
  exists ms,
    outbox (closeTab i s) = outbox s ++ ms ++ [tab_closed i]
    /\ ((activeTabId s <> Some i /\ ms = []
         /\ activeTabId (closeTab i s) = activeTabId s
         /\ get_tabs (closeTab i s)
            = filter (fun e => negb (TabInfo.id e =? i)) (get_tabs s))
        \/ (activeTabId s = Some i /\ ms = []
            /\ activeTabId (closeTab i s) = None
            /\ get_tabs (closeTab i s) = []
            /\ filter (fun e => negb (TabInfo.id e =? i)) (get_tabs s) = [])
        \/ (exists k,
              activeTabId s = Some i /\ ms = [tab_switched k]
              /\ activeTabId (closeTab i s) = Some k
              /\ get_tabs (closeTab i s)
                 = filter (fun e => negb (TabInfo.id e =? i))
                     (map (mark k) (get_tabs s)))).
Proof.
  intros Hi Hw Hin. unfold closeTab.
  destruct (in_keys_get _ _ Hin) as [t Hg]. rewrite Hg.
  destruct (mainWindow s) as [w|] eqn:Ew; [|contradiction].
  set (s1 := remove_tab i t w s).
  assert (Ho1 : outbox s1 = outbox s) by (unfold outbox; cbn; now rewrite Ew).
  assert (Hw1 : mainWindow s1 <> None) by discriminate.
  unfold fall_back.
  change (activeTabId s1) with (activeTabId s).
  assert (Hother : activeTabId s <> Some i ->
            exists ms,
              outbox (send_opt (tab_closed i) s1) = outbox s ++ ms ++ [tab_closed i]
              /\ (activeTabId s <> Some i /\ ms = []
                  /\ activeTabId (send_opt (tab_closed i) s1) = activeTabId s
                  /\ get_tabs (send_opt (tab_closed i) s1)
                     = filter (fun e => negb (TabInfo.id e =? i)) (get_tabs s))).
  { intros Hne. exists []. split.
    - rewrite outbox_send_opt, Ho1 by assumption. reflexivity.
    - split; [assumption|]. split; [reflexivity|].
      split; [now rewrite send_opt_active|].
      rewrite get_tabs_send_opt.
      apply (remove_tab_get_tabs i t w s (activeTabId s) Hi). }
  destruct (activeTabId s) as [a|] eqn:Ea.
  2:{ destruct Hother as (ms & E1 & E2); [discriminate|]. exists ms. auto. }
  destruct (Z.eqb_spec a i) as [->|Hne].
  2:{ destruct Hother as (ms & E1 & E2); [congruence|]. exists ms. auto. }
  destruct (JsMap.keys (tabs s1)) as [|k0 rest] eqn:Ek.
  - exists []. split.
    + cbn [List.length Z.of_nat Z.ltb Z.compare].
      rewrite outbox_send_opt by discriminate.
      unfold outbox. cbn. now rewrite Ew.
    + right. left. cbn [List.length Z.of_nat Z.ltb Z.compare].
      split; [reflexivity|]. split; [reflexivity|].
      split; [now rewrite send_opt_active|].
      apply map_eq_nil in Ek. split.
      * rewrite get_tabs_send_opt, get_tabs_info.
        cbn [tabs set_activeTabId]. now rewrite Ek.
      * pose proof (remove_tab_get_tabs i t w s (activeTabId s) Hi) as E.
        rewrite get_tabs_info in E. cbn [tabs set_activeTabId] in E.
        fold s1 in E. rewrite Ek in E. rewrite get_tabs_info. now rewrite <- E.
  - replace (0 <? Z.of_nat (List.length (k0 :: rest))) with true
      by (symmetry; apply Z.ltb_lt; simpl List.length; lia).
    destruct (last_of_in (k0 :: rest)) as (k & -> & Hk); [discriminate|].
    rewrite <- Ek in Hk.
    destruct (switchToTab_get_tabs k s1 Hw1 Hk) as [Eg Eo].
    exists [tab_switched k]. split.
    + rewrite outbox_send_opt by now apply switchToTab_window.
      rewrite Eo, Ho1. now rewrite <- app_assoc.
    + right. right. exists k.
      split; [reflexivity|]. split; [reflexivity|]. split.
      * rewrite send_opt_active. now apply switchToTab_known.
      * rewrite get_tabs_send_opt, Eg, (get_tabs_info s1).
        change (activeTabId s1) with (activeTabId s). rewrite Ea.
        change (map (info (Some i)) (JsMap.values (tabs s1)))
          with (get_tabs (set_activeTabId (Some i) s1)).
        unfold s1. rewrite remove_tab_get_tabs by assumption.
        rewrite (get_tabs_info s), Ea. now rewrite filter_mark.
Qed.

(** *** The page events *)

Lemma unique_tab s i tab t :
  Inv s -> JsMap.get i (tabs s) = Some tab ->
  In t (JsMap.values (tabs s)) -> id t = i -> t = tab.
Proof.
  intros Hi Hg Hin E. unfold JsMap.values in Hin. apply in_map_iff in Hin.
  destruct Hin as ([k t'] & Et & Hin). simpl in Et. subst t'.
  pose proof (inv_ids _ Hi) as Hids. rewrite Forall_forall in Hids.
  specialize (Hids _ Hin). unfold id_in_place in Hids. simpl in Hids.
  assert (k = i) by congruence. subst k.
  pose proof (in_get _ _ _ (inv_sorted _ Hi) Hin) as Hg'. congruence.
Qed.

Lemma modify_gone {V : Type} k (f : V -> V) (m : JsMap.t V) :
  ~ In k (JsMap.keys m) -> JsMap.modify k f m = m.
Proof.
  induction m as [|[k' v'] m IH]; simpl; intros H; [reflexivity|].
  destruct (Z.eqb_spec k' k); [tauto|]. f_equal. apply IH. tauto.
Qed.

Lemma info_modify_url a i u (m : JsMap.t Tab) :
  Forall id_in_place m ->
  map (info a) (JsMap.values (JsMap.modify i (with_url u) m))
  = map (with_info_url i u) (map (info a) (JsMap.values m)).
Proof.
  induction 1 as [|[k t] m Hk Hm IH]; simpl; [reflexivity|].
  unfold id_in_place in Hk. simpl in Hk. rewrite <- IH. f_equal.
  unfold with_info_url. change (TabInfo.id (info a t)) with (id t).
  rewrite Hk. destruct (k =? i); subst k; reflexivity.
Qed.

Lemma info_modify_title a i u (m : JsMap.t Tab) :
  Forall id_in_place m ->
  map (info a) (JsMap.values (JsMap.modify i (with_title u) m))
  = map (with_info_title i u) (map (info a) (JsMap.values m)).
Proof.
  induction 1 as [|[k t] m Hk Hm IH]; simpl; [reflexivity|].
  unfold id_in_place in Hk. simpl in Hk. rewrite <- IH. f_equal.
  unfold with_info_title. change (TabInfo.id (info a t)) with (id t).
  rewrite Hk. destruct (k =? i); subst k; reflexivity.
Qed.

Lemma did_navigate_get_tabs i u s :
  Inv s ->
  get_tabs (did_navigate i u s) = map (with_info_url i u) (get_tabs s)
  /\ activeTabId (did_navigate i u s) = activeTabId s.
Proof.
  intros Hi. rewrite (get_tabs_info s), <- info_modify_url by apply Hi.
  unfold did_navigate. destruct (JsMap.get i (tabs s)) as [tab|] eqn:Eg.
  - rewrite get_tabs_send_opt, send_opt_active. now split.
  - rewrite modify_gone; [now split|].
    intros Hin. destruct (in_keys_get _ _ Hin). congruence.
Qed.

Lemma page_title_updated_get_tabs i u s :
  Inv s ->
  get_tabs (page_title_updated i u s) = map (with_info_title i u) (get_tabs s)
  /\ activeTabId (page_title_updated i u s) = activeTabId s.
Proof.
  intros Hi. rewrite (get_tabs_info s), <- info_modify_title by apply Hi.
  unfold page_title_updated. destruct (JsMap.get i (tabs s)) as [tab|] eqn:Eg.
  - rewrite get_tabs_send_opt, send_opt_active. now split.
  - rewrite modify_gone; [now split|].
    intros Hin. destruct (in_keys_get _ _ Hin). congruence.
Qed.

Lemma resize_get_tabs size s :
  get_tabs (resize size s) = get_tabs s
  /\ activeTabId (resize size s) = activeTabId s
  /\ outbox (resize size s) = outbox s.
Proof.
  unfold resize. destruct (mainWindow s) as [w|] eqn:Ew; [|auto].
  cbn [activeTabId set_mainWindow tabs].
  assert (Ho : forall m,
            outbox (set_tabs m (set_mainWindow (Some (set_contentSize size w)) s))
            = outbox s).
  { intros m. unfold outbox. cbn. now rewrite Ew. }
  destruct (activeTabId s) as [a|] eqn:Ea;
    [destruct (JsMap.get a (tabs s)) as [t|] eqn:Eg|].
  - split; [|split; [exact Ea | apply Ho]].
    rewrite !get_tabs_info. cbn [tabs set_tabs activeTabId set_mainWindow].
    now apply info_modify.
  - split; [reflexivity|]. split; [exact Ea|]. apply (Ho (tabs s)).
  - split; [reflexivity|]. split; [exact Ea|]. apply (Ho (tabs s)).
Qed.

(** *** ['execute-action'] *)

Lemma add_requests_app l : forall wc,
  add_requests l wc = {| requests := requests wc ++ l |}.
Proof.
  unfold add_requests. induction l as [|r l IH]; intros [rq]; simpl.
  - now rewrite app_nil_r.
  - rewrite IH. unfold request. simpl. now rewrite <- app_assoc.
Qed.

Lemma on_tab_nothing k s :
  on_tab k (fun wc => {| requests := requests wc ++ [] |}) s = s.
Proof.
  apply ActionExecutor.on_tab_same. intros [rq]. simpl. now rewrite app_nil_r.
Qed.

End TabListFacts.

(* ------------------------------------------------------------------ *)
(** ** More of the action executor *)

Module Actions.

Import Js.
Import Electron.
Import Main.
Import JsMapFacts.
Import MainFacts.
Import Layout.
Import TabListFacts.
Import ActionExecutor.
Import Scenario.

Lemma type_text_app a :
  exists l, forall wc, type_text a wc = {| requests := requests wc ++ l |}.
Proof.
  unfold type_text. destruct (Action.text a) as [t|].
  - destruct (truthy t).
    + eexists. intros wc. apply type_text_requests.
    + exists []. intros [rq]. simpl. now rewrite app_nil_r.
  - exists []. intros [rq]. simpl. now rewrite app_nil_r.
Qed.

Lemma on_tab_appending k f l s :
  (forall wc, f wc = {| requests := requests wc ++ l |}) ->
  on_tab k f s = on_tab k (fun wc => {| requests := requests wc ++ l |}) s.
Proof. apply on_tab_ext. Qed.

(** The state after ['execute-action']: some requests more for the
    active tab, and nothing else. *)
Lemma execute_action_state a page s :
  exists l,
    fst (execute_action a page s)
    = match activeTabId s with
      | Some act => on_tab act (fun wc => {| requests := requests wc ++ l |}) s
      | None => s
      end.
Proof.
  unfold execute_action. destruct (activeTabId s) as [act|]; [|now exists []].
  destruct (JsMap.get act (tabs s)) as [tab|].
  2:{ exists []. cbn [fst]. now rewrite on_tab_nothing. }
  destruct (is_type a "click").
  { exists (click_requests a). cbn [fst]. apply on_tab_appending, add_requests_app. }
  destruct (is_type a "type").
  { destruct (type_text_app a) as [l Hl]. exists l. cbn [fst].
    now apply on_tab_appending. }
  destruct (is_type a "scroll").
  { eexists. destruct (evaluate page _); cbn [fst];
      apply on_tab_appending; intros wc; reflexivity. }
  destruct (is_type a "enter").
  { eexists. cbn [fst]. apply on_tab_appending, add_requests_app. }
  destruct (is_type a "back").
  { destruct (canGoBack page); cbn [fst].
    - exists [goBack]. apply on_tab_appending. intros wc. reflexivity.
    - exists []. now rewrite on_tab_nothing. }
  destruct (is_type a "forward").
  { destruct (canGoForward page); cbn [fst].
    - exists [goForward]. apply on_tab_appending. intros wc. reflexivity.
    - exists []. now rewrite on_tab_nothing. }
  destruct (is_type a "extract-text").
  { eexists. destruct (evaluate page _) as [[|t]|]; cbn [fst];
      apply on_tab_appending; intros wc; reflexivity. }
  exists []. cbn [fst]. now rewrite on_tab_nothing.
Qed.

(** X4 (an action only asks).  Whatever the action and the page,
    ['execute-action'] leaves the window, the active id, the counter
    and the answer of ['get-tabs'] as they are; all it does to the state
    is to add requests, after those already made, to the [webContents]
    of the active tab. *)
Theorem execute_action_only_appends (a : Action) (page : Page) (s : State) :
  exists l,
    fst (execute_action a page s)
    = match activeTabId s with
      | Some act => on_tab act (fun wc => {| requests := requests wc ++ l |}) s
      | None => s
      end
    /\ mainWindow (fst (execute_action a page s)) = mainWindow s
    /\ activeTabId (fst (execute_action a page s)) = activeTabId s
    /\ nextTabId (fst (execute_action a page s)) = nextTabId s
    /\ get_tabs (fst (execute_action a page s)) = get_tabs s.
Proof.
  destruct (execute_action_state a page s) as [l E]. exists l.
  split; [exact E|]. rewrite E.
  destruct (activeTabId s) as [act|] eqn:Ea; repeat split; auto.
  apply get_tabs_on_tab.
Qed.

(** X5 (unknown action).  With an active tab, an action whose type is
    none of the seven the handler knows is answered by a failure naming
    the type, and changes nothing. *)
Theorem unknown_action_type (a : Action) (page : Page) (s : State) (act : Z) :
  activeTabId s = Some act ->
  JsMap.has act (tabs s) = true ->
  ~ In (Action.type a)
       [lit "click"; lit "type"; lit "scroll"; lit "enter"; lit "back";
        lit "forward"; lit "extract-text"] ->
  execute_action a page s
  = (s, result {| success := false; text := None;
                  error := Some (lit "Unknown action: " ++ Action.type a) |}).
Proof.
  intros Ha Hh Hn. destruct (has_get _ _ Hh) as [tab Hg].
  assert (Hno : forall name,
            In (lit name)
               [lit "click"; lit "type"; lit "scroll"; lit "enter"; lit "back";
                lit "forward"; lit "extract-text"] ->
            is_type a name = false).
  { intros name Hin. unfold is_type.
    destruct (Js.eqb (Action.type a) (lit name)) eqn:E; [|reflexivity].
    apply eqb_eq in E. rewrite E in Hn. contradiction. }
  unfold execute_action. rewrite Ha, Hg.
  rewrite !Hno by (simpl; tauto). reflexivity.
Qed.

Lemma unknown_action_type_witness :
  activeTabId one_tab = Some 1
  /\ JsMap.has 1 (tabs one_tab) = true
  /\ execute_action (action "hover") blank one_tab
     = (one_tab,
        result {| success := false; text := None;
                  error := Some (lit "Unknown action: "
                                 ++ Action.type (action "hover")) |}).
Proof.
  split; [reflexivity|]. split; [reflexivity|].
  apply (unknown_action_type (action "hover") blank one_tab 1 eq_refl eq_refl).
  vm_compute. intros H.
  repeat (destruct H as [H|H]; [discriminate|]). exact H.
Defined.

(** X6 (click).  With an active tab, a click with both coordinates
    sends the tab a press of the left button at the point, then its
    release; a click that lacks a coordinate sends nothing; the answer
    is a success both times. *)
Theorem click_semantics (a : Action) (page : Page) (s : State) (act : Z) :
  activeTabId s = Some act ->
  JsMap.has act (tabs s) = true ->
  Action.type a = lit "click" ->
  (forall px py,
     Action.x a = Some px -> Action.y a = Some py ->
     execute_action a page s
     = (on_tab act
          (fun wc =>
             {| requests :=
                  requests wc
                  ++ [sendInputEvent (mouseDown px py left 1);
                      sendInputEvent (mouseUp px py left)] |}) s,
        result {| success := true; text := None; error := None |}))
  /\ (Action.x a = None \/ Action.y a = None ->
      execute_action a page s
      = (s, result {| success := true; text := None; error := None |})).
Proof.
  intros Ha Hh Ht. destruct (has_get _ _ Hh) as [tab Hg].
  assert (E : execute_action a page s
              = (on_tab act (add_requests (click_requests a)) s, result ok)).
  { unfold execute_action. rewrite Ha, Hg. decide_type Ht. reflexivity. }
  rewrite E. split.
  - intros px py Hx Hy. f_equal. apply on_tab_appending. intros wc.
    rewrite add_requests_app. unfold click_requests. now rewrite Hx, Hy.
  - intros Hxy. f_equal. apply on_tab_same. intros wc.
    unfold click_requests. destruct Hxy as [-> | ->];
      [|destruct (Action.x a)]; reflexivity.
Qed.

Lemma click_semantics_witness :
  activeTabId one_tab = Some 1
  /\ JsMap.has 1 (tabs one_tab) = true
  /\ Action.type click_10_10 = lit "click"
  /\ Action.x click_10_10 = Some 10
  /\ Action.y click_10_10 = Some 10
  /\ execute_action click_10_10 blank one_tab
     = (on_tab 1
          (fun wc =>
             {| requests :=
                  requests wc
                  ++ [sendInputEvent (mouseDown 10 10 left 1);
                      sendInputEvent (mouseUp 10 10 left)] |}) one_tab,
        result {| success := true; text := None; error := None |}).
Proof.
  repeat (split; [reflexivity|]).
  exact (proj1 (click_semantics click_10_10 blank one_tab 1
                  eq_refl eq_refl eq_refl) 10 10 eq_refl eq_refl).
Defined.

(** X7 (history).  With an active tab, [back] and [forward] ask the tab
    to move in its history only when the page can; when it cannot,
    nothing is asked and the state stays; the answer is a success
    either way. *)
Theorem history_semantics (a : Action) (page : Page) (s : State) (act : Z) :
  activeTabId s = Some act ->
  JsMap.has act (tabs s) = true ->
  (Action.type a = lit "back" ->
   execute_action a page s
   = ((if canGoBack page then on_tab act (request goBack) s else s),
      result {| success := true; text := None; error := None |}))
  /\ (Action.type a = lit "forward" ->
      execute_action a page s
      = ((if canGoForward page then on_tab act (request goForward) s else s),
         result {| success := true; text := None; error := None |})).
Proof.
  intros Ha Hh. destruct (has_get _ _ Hh) as [tab Hg].
  split; intros Ht; unfold execute_action; rewrite Ha, Hg; decide_type Ht;
    reflexivity.
Qed.

Lemma history_semantics_witness :
  activeTabId one_tab = Some 1
  /\ JsMap.has 1 (tabs one_tab) = true
  /\ Action.type (action "back") = lit "back"
  /\ execute_action (action "back") blank one_tab
     = (one_tab, result {| success := true; text := None; error := None |}).
Proof.
  repeat (split; [reflexivity|]).
  exact (proj1 (history_semantics (action "back") blank one_tab 1
                  eq_refl eq_refl) eq_refl).
Defined.

End Actions.

(* ------------------------------------------------------------------ *)
(** ** The tab list of the renderer follows the main process *)

Module Mirror.

Import Js.
Import Electron.
Import Main.
Import Invariant.
Import JsMapFacts.
Import MainFacts.
Import Window.
Import WindowFacts.
Import Layout.
Import LayoutFacts.
Import TabListFacts.
Import Session.

Lemma replay_app ms ms' ui :
  Renderer.replay (ms ++ ms') ui = Renderer.replay ms' (Renderer.replay ms ui).
Proof. unfold Renderer.replay. apply fold_left_app. Qed.

Lemma mirrors_same s s' ui :
  get_tabs s' = get_tabs s -> activeTabId s' = activeTabId s ->
  outbox s' = outbox s -> mirrors s ui ->
  exists ms, outbox s' = outbox s ++ ms /\ mirrors s' (Renderer.replay ms ui).
Proof.
  intros Eg Ea Eo [Ht Hact]. exists []. rewrite app_nil_r. split; [assumption|].
  split; [now rewrite Eg | now rewrite Ea].
Qed.

Lemma mirrors_switch i s ui :
  mainWindow s <> None -> In i (JsMap.keys (tabs s)) -> mirrors s ui ->
  exists ms,
    outbox (switchToTab i s) = outbox s ++ ms
    /\ mirrors (switchToTab i s) (Renderer.replay ms ui).
Proof.
  intros Hw Hin [Ht Hact].
  destruct (switchToTab_get_tabs i s Hw Hin) as [Eg Eo].
  exists [tab_switched i]. split; [assumption|]. split.
  - cbn. rewrite Eg, Ht. reflexivity.
  - intros a Ha. rewrite (switchToTab_known i s Hw Hin) in Ha. exact Ha.
Qed.

Lemma mirrors_create u s ui :
  Inv s -> mainWindow s <> None -> nextTabId s < two53 -> mirrors s ui ->
  exists ms,
    outbox (fst (createTab u s)) = outbox s ++ ms
    /\ mirrors (fst (createTab u s)) (Renderer.replay ms ui).
Proof.
  intros Hi Hw Hlt [Ht Hact].
  destruct (createTab_get_tabs u s Hi Hw Hlt) as [Eg Eo].
  eexists. split; [exact Eo|]. split.
  - cbn. rewrite Eg, Ht. reflexivity.
  - intros a Ha. rewrite (createTab_active u s Hw) in Ha. exact Ha.
Qed.

Lemma mirrors_close i s ui :
  Inv s -> mainWindow s <> None -> mirrors s ui ->
  exists ms,
    outbox (closeTab i s) = outbox s ++ ms
    /\ mirrors (closeTab i s) (Renderer.replay ms ui).
Proof.
  intros Hi Hw Hm. destruct (JsMap.get i (tabs s)) as [t|] eqn:Eg.
  2:{ rewrite closeTab_unknown by assumption. now apply mirrors_same. }
  destruct Hm as [Ht Hact].
  destruct (closeTab_get_tabs i s Hi Hw (get_in_keys _ _ _ Eg))
    as (ms & Eo & [(Hne & -> & Ea & E)|[(Ha & -> & Ea & E & E')|(k & Ha & -> & Ea & E)]]).
  - eexists. split; [exact Eo|]. split.
    + cbn. rewrite E, Ht. reflexivity.
    + intros a Ha'. cbn. apply Hact. congruence.
  - eexists. split; [exact Eo|]. split.
    + cbn. rewrite E, Ht. exact E'.
    + intros a Ha'. congruence.
  - eexists. split; [exact Eo|]. split.
    + cbn. rewrite E, Ht. reflexivity.
    + intros a Ha'. cbn. congruence.
Qed.

Lemma mirrors_did_navigate i u s ui :
  Inv s -> mainWindow s <> None -> mirrors s ui ->
  exists ms,
    outbox (did_navigate i u s) = outbox s ++ ms
    /\ mirrors (did_navigate i u s) (Renderer.replay ms ui).
Proof.
  intros Hi Hw Hm. destruct (did_navigate_get_tabs i u s Hi) as [Eg Ea].
  destruct (JsMap.get i (tabs s)) as [tab|] eqn:Et.
  2:{ unfold did_navigate. rewrite Et. now apply mirrors_same. }
  destruct Hm as [Ht Hact].
  exists [tab_updated i u (title tab)]. split.
  - unfold did_navigate. rewrite Et. now rewrite outbox_send_opt.
  - split; [|now rewrite Ea].
    cbn. rewrite Eg, Ht. apply map_ext_in. intros e He.
    unfold with_info_url. destruct (Z.eqb_spec (TabInfo.id e) i) as [E|E]; [|reflexivity].
    rewrite get_tabs_info in He. apply in_map_iff in He.
    destruct He as (t & <- & Hin).
    assert (t = tab) by exact (unique_tab s i tab t Hi Et Hin E). subst t.
    rewrite <- E. reflexivity.
Qed.

Lemma mirrors_page_title_updated i u s ui :
  Inv s -> mainWindow s <> None -> mirrors s ui ->
  exists ms,
    outbox (page_title_updated i u s) = outbox s ++ ms
    /\ mirrors (page_title_updated i u s) (Renderer.replay ms ui).
Proof.
  intros Hi Hw Hm. destruct (page_title_updated_get_tabs i u s Hi) as [Eg Ea].
  destruct (JsMap.get i (tabs s)) as [tab|] eqn:Et.
  2:{ unfold page_title_updated. rewrite Et. now apply mirrors_same. }
  destruct Hm as [Ht Hact].
  exists [tab_updated i (url tab) u]. split.
  - unfold page_title_updated. rewrite Et. now rewrite outbox_send_opt.
  - split; [|now rewrite Ea].
    cbn. rewrite Eg, Ht. apply map_ext_in. intros e He.
    unfold with_info_title. destruct (Z.eqb_spec (TabInfo.id e) i) as [E|E]; [|reflexivity].
    rewrite get_tabs_info in He. apply in_map_iff in He.
    destruct He as (t & <- & Hin).
    assert (t = tab) by exact (unique_tab s i tab t Hi Et Hin E). subst t.
    rewrite <- E. reflexivity.
Qed.

Lemma outbox_same_window s s' : mainWindow s' = mainWindow s -> outbox s' = outbox s.
Proof. unfold outbox. now intros ->. Qed.

Lemma handle_mirrors e s ui :
  Inv s -> mainWindow s <> None -> nextTabId s < two53 -> mirrors s ui ->
  exists ms,
    outbox (handle e s) = outbox s ++ ms
    /\ mirrors (handle e s) (Renderer.replay ms ui).
Proof.
  intros Hi Hw Hlt Hm. destruct e as [op|width height].
  - unfold handle. rewrite fst_step. destruct op as [u|i|i|u|a page|i u|i u].
    + now apply mirrors_create.
    + destruct (JsMap.get i (tabs s)) as [t|] eqn:Eg.
      * apply mirrors_switch; eauto using get_in_keys.
      * rewrite switchToTab_unknown by assumption. now apply mirrors_same.
    + now apply mirrors_close.
    + unfold navigate. destruct (activeTabId s) as [a|] eqn:Ea.
      * destruct (JsMap.get a (tabs s)); cbn [fst]; apply mirrors_same; auto.
        apply get_tabs_on_tab.
      * cbn [fst]. now apply mirrors_create.
    + destruct (Actions.execute_action_state a page s) as [l E]. rewrite E.
      destruct (activeTabId s) as [act|] eqn:Ea; apply mirrors_same;
        auto using outbox_same_window, get_tabs_on_tab.
    + now apply mirrors_did_navigate.
    + now apply mirrors_page_title_updated.
  - destruct (resize_get_tabs (width, height) s) as (Eg & Ea & Eo).
    now apply mirrors_same.
Qed.

Lemma after_mirrors evs : forall s ui,
  Inv s -> mainWindow s <> None ->
  nextTabId s + Z.of_nat (List.length evs) <= two53 -> mirrors s ui ->
  exists ms,
    outbox (after evs s) = outbox s ++ ms
    /\ mirrors (after evs s) (Renderer.replay ms ui).
Proof.
  induction evs as [|e evs IH]; intros s ui Hi Hw Hlen Hm.
  - exists []. rewrite app_nil_r. now split.
  - rewrite after_cons.
    change (List.length (e :: evs)) with (S (List.length evs)) in Hlen.
    destruct (handle_mirrors e s ui Hi Hw) as (ms1 & Eo1 & Hm1); [lia|assumption|].
    destruct (IH (handle e s) (Renderer.replay ms1 ui)) as (ms2 & Eo2 & Hm2).
    + now apply handle_Inv.
    + now apply handle_window.
    + pose proof (inv_next _ Hi) as Hn.
      destruct (handle_next e s Hi) as [E|E]; rewrite E; [lia|].
      unfold incr. destruct (nextTabId s <? two53); lia.
    + assumption.
    + exists (ms1 ++ ms2). rewrite Eo2, Eo1, replay_app.
      now rewrite <- app_assoc.
Qed.

(** X8 (the tab bar is right).  A window starts with nothing sent to
    its renderer and no tab.  After fewer than [2^53] events, the
    component that has received every message the main process sent
    holds in [tabs] exactly what ['get-tabs'] answers (ids, urls,
    titles, marks, in this order), and its [activeTabId] is the active
    id of the main process whenever there is one. *)
Theorem renderer_mirrors_main (w : BrowserWindow) (evs : list Event) :
  sent w = [] ->
  Z.of_nat (List.length evs) < two53 ->
  Renderer.tabs
    (Renderer.replay (outbox (after evs (initial (Some w)))) Renderer.mounted)
  = get_tabs (after evs (initial (Some w)))
  /\ forall a,
       activeTabId (after evs (initial (Some w))) = Some a ->
       Renderer.activeTabId
         (Renderer.replay (outbox (after evs (initial (Some w))))
            Renderer.mounted)
       = Some a.
Proof.
  intros Hs Hlen.
  destruct (after_mirrors evs (initial (Some w)) Renderer.mounted)
    as (ms & Eo & Hm).
  - apply initial_Inv.
  - discriminate.
  - change (nextTabId (initial (Some w))) with 1. lia.
  - split; [reflexivity | discriminate].
  - unfold outbox at 2 in Eo. cbn [mainWindow initial] in Eo.
    rewrite Hs in Eo. cbn [app] in Eo. rewrite Eo. exact Hm.
Qed.

Lemma renderer_mirrors_main_witness :
  sent Scenario.window = []
  /\ Z.of_nat (List.length browsing) < two53
  /\ Renderer.tabs
       (Renderer.replay
          (outbox (after browsing (initial (Some Scenario.window))))
          Renderer.mounted)
     = get_tabs (after browsing (initial (Some Scenario.window))).
Proof.
  assert (Hlen : Z.of_nat (List.length browsing) < two53) by reflexivity.
  split; [reflexivity|]. split; [exact Hlen|].
  exact (proj1 (renderer_mirrors_main Scenario.window browsing eq_refl Hlen)).
Defined.

End Mirror.

(* ------------------------------------------------------------------ *)
(** ** What the tab list shows after a request or a page event *)

Module TabList.

Import Js.
Import Electron.
Import Main.
Import Invariant.
Import JsMapFacts.
Import MainFacts.
Import Window.
Import WindowFacts.
Import Layout.
Import LayoutFacts.
Import TabListFacts.
Import Session.

Lemma run_Inv' w evs : Inv (after evs (initial (Some w))).
Proof. apply after_Inv, initial_Inv. Qed.

Lemma run_window w evs : mainWindow (after evs (initial (Some w))) <> None.
Proof. apply after_window. discriminate. Qed.

Lemma run_next w evs :
  nextTabId (after evs (initial (Some w))) <= 1 + Z.of_nat (List.length evs).
Proof.
  pose proof (after_next evs (initial (Some w)) (initial_Inv _)) as H.
  change (nextTabId (initial (Some w))) with 1 in H. lia.
Qed.

Lemma ids_of_get_tabs s :
  Inv s -> map TabInfo.id (get_tabs s) = JsMap.keys (tabs s).
Proof. intros H. apply get_tabs_ids, H. Qed.

Lemma mark_absent i (l : list TabInfo) :
  ~ In i (map TabInfo.id l) -> map (mark i) l = map unmark l.
Proof.
  intros H. apply map_ext_in. intros e He. unfold mark, unmark.
  destruct (Z.eqb_spec (TabInfo.id e) i) as [E|E]; [|reflexivity].
  exfalso. apply H. rewrite <- E. now apply in_map.
Qed.

Lemma filter_absent i (l : list TabInfo) :
  ~ In i (map TabInfo.id l) ->
  filter (fun e => negb (TabInfo.id e =? i)) l = l.
Proof.
  induction l as [|e l IH]; simpl; intros H; [reflexivity|].
  destruct (Z.eqb_spec (TabInfo.id e) i) as [E|E]; [tauto|].
  simpl. f_equal. apply IH. tauto.
Qed.

(** X9 (a new tab in the list).  In a state a window has reached, with
    the counter still below [2^53]: ['create-tab'] answers the value of
    the counter, an id no listed tab has, with the url as given; and
    ['get-tabs'] then lists the same tabs as before, none of them
    marked, followed by the new one, titled ["New Tab"] and marked. *)
Theorem create_tab_appends (w : BrowserWindow) (evs : list Event)
    (u : JsString) :
  Z.of_nat (List.length evs) + 1 < two53 ->
  snd (create_tab u (after evs (initial (Some w))))
  = created (nextTabId (after evs (initial (Some w)))) u
  /\ ~ In (nextTabId (after evs (initial (Some w))))
          (map TabInfo.id (get_tabs (after evs (initial (Some w)))))
  /\ get_tabs (fst (create_tab u (after evs (initial (Some w)))))
     = map unmark (get_tabs (after evs (initial (Some w))))
       ++ [{| TabInfo.id := nextTabId (after evs (initial (Some w)));
              TabInfo.url := u;
              TabInfo.title := lit "New Tab";
              TabInfo.active := true |}].
Proof.
  intros Hlen.
  pose proof (run_Inv' w evs) as Hi. pose proof (run_window w evs) as Hw.
  pose proof (run_next w evs) as Hn.
  set (s := after evs (initial (Some w))) in *.
  assert (Hlt : nextTabId s < two53) by lia.
  assert (Hfresh : ~ In (nextTabId s) (map TabInfo.id (get_tabs s))).
  { rewrite ids_of_get_tabs by assumption. now apply next_not_in. }
  assert (Hrep : snd (create_tab u s) = created (nextTabId s) u
                 /\ fst (create_tab u s) = fst (createTab u s)).
  { unfold create_tab. pose proof (createTab_id u s Hi) as Eid.
    assert (Eurl : url (snd (createTab u s)) = u).
    { unfold createTab. cbv zeta. cbn [snd].
      match goal with
      | |- url (match ?g with _ => _ end) = _ => destruct g as [t|] eqn:Eg
      end; [|reflexivity].
      rewrite send_opt_tabs in Eg. revert Eg.
      rewrite switchToTab_tabs.
      - rewrite get_show_or_hide.
        destruct (truthy u); cbn [tabs on_tab set_tabs];
          rewrite ?get_modify, ?Z.eqb_refl, get_set, Z.eqb_refl;
          cbn [option_map]; intros [= <-];
          unfold show_or_hide; cbn [fst snd]; rewrite Z.eqb_refl;
          reflexivity.
      - now destruct (truthy u).
      - destruct (truthy u); cbn [tabs on_tab set_tabs];
          rewrite ?keys_modify; eapply get_in_keys, get_set_same. }
    destruct (createTab u s) as [s' t]. cbn [fst snd] in *.
    now rewrite Eid, Eurl. }
  destruct Hrep as [Er Es]. split; [exact Er|]. split; [exact Hfresh|].
  rewrite Es. rewrite (proj1 (createTab_get_tabs u s Hi Hw Hlt)).
  now rewrite mark_absent.
Qed.

Lemma create_tab_appends_witness :
  Z.of_nat (List.length two_tabs_resized) + 1 < two53
  /\ snd (create_tab (lit "example.org")
            (after two_tabs_resized (initial (Some Scenario.window))))
     = created (nextTabId (after two_tabs_resized (initial (Some Scenario.window))))
         (lit "example.org").
Proof.
  assert (H : Z.of_nat (List.length two_tabs_resized) + 1 < two53) by reflexivity.
  split; [exact H|].
  exact (proj1 (create_tab_appends Scenario.window two_tabs_resized
                  (lit "example.org") H)).
Defined.

(** X10 (activation in the list).  In a state a window has reached,
    ['switch-tab'] to a listed id makes it the active id, and
    ['get-tabs'] then lists the same tabs, marked the one with that id
    and no other. *)
Theorem switch_tab_marks (w : BrowserWindow) (evs : list Event) (i : Z) :
  In i (map TabInfo.id (get_tabs (after evs (initial (Some w))))) ->
  activeTabId (fst (switch_tab i (after evs (initial (Some w))))) = Some i
  /\ get_tabs (fst (switch_tab i (after evs (initial (Some w)))))
     = map (mark i) (get_tabs (after evs (initial (Some w)))).
Proof.
  pose proof (run_Inv' w evs) as Hi. pose proof (run_window w evs) as Hw.
  set (s := after evs (initial (Some w))) in *.
  rewrite ids_of_get_tabs by assumption. intros Hin. cbn [switch_tab fst].
  split; [now apply switchToTab_known|].
  now apply switchToTab_get_tabs.
Qed.

Lemma switch_tab_marks_witness :
  In 1 (map TabInfo.id
          (get_tabs (after two_tabs_resized (initial (Some Scenario.window)))))
  /\ activeTabId
       (fst (switch_tab 1 (after two_tabs_resized (initial (Some Scenario.window)))))
     = Some 1.
Proof.
  assert (H : In 1 (map TabInfo.id
                      (get_tabs (after two_tabs_resized
                                   (initial (Some Scenario.window))))))
    by (vm_compute; tauto).
  split; [exact H|].
  exact (proj1 (switch_tab_marks Scenario.window two_tabs_resized 1 H)).
Defined.

(** X11 (closing another tab).  In a state a window has reached,
    ['close-tab'] of an id that is not the active one leaves the active
    id as it is, and ['get-tabs'] then lists the same entries but the
    one with that id. *)
Theorem close_other_tab (w : BrowserWindow) (evs : list Event) (i : Z) :
  activeTabId (after evs (initial (Some w))) <> Some i ->
  activeTabId (fst (close_tab i (after evs (initial (Some w)))))
  = activeTabId (after evs (initial (Some w)))
  /\ get_tabs (fst (close_tab i (after evs (initial (Some w)))))
     = filter (fun e => negb (TabInfo.id e =? i))
         (get_tabs (after evs (initial (Some w)))).
Proof.
  pose proof (run_Inv' w evs) as Hi. pose proof (run_window w evs) as Hw.
  set (s := after evs (initial (Some w))) in *.
  intros Hne. cbn [close_tab fst].
  destruct (JsMap.get i (tabs s)) as [t|] eqn:Eg.
  - destruct (closeTab_get_tabs i s Hi Hw (get_in_keys _ _ _ Eg))
      as (ms & _ & [(_ & _ & Ea & E)|[(Ha & _)|(k & Ha & _)]]);
      [now split | contradiction | contradiction].
  - rewrite closeTab_unknown by assumption. split; [reflexivity|].
    symmetry. apply filter_absent. rewrite ids_of_get_tabs by assumption.
    intros Hin. destruct (in_keys_get _ _ Hin). congruence.
Qed.

Lemma close_other_tab_witness :
  activeTabId (after two_tabs_resized (initial (Some Scenario.window))) <> Some 1
  /\ activeTabId
       (fst (close_tab 1 (after two_tabs_resized (initial (Some Scenario.window)))))
     = activeTabId (after two_tabs_resized (initial (Some Scenario.window))).
Proof.
  assert (H : activeTabId (after two_tabs_resized (initial (Some Scenario.window)))
              <> Some 1) by (vm_compute; discriminate).
  split; [exact H|].
  exact (proj1 (close_other_tab Scenario.window two_tabs_resized 1 H)).
Defined.

(** X12 (what the pages report).  In a state a window has reached, a
    ['did-navigate'] event of the view of tab [i] changes, in the answer
    of ['get-tabs'], the url of the entry with the id [i] and nothing
    else, and a ['page-title-updated'] event its title and nothing else;
    when no tab has this id any more, nothing changes. *)
Theorem page_events_update (w : BrowserWindow) (evs : list Event) (i : Z)
    (u : JsString) :
  get_tabs (did_navigate i u (after evs (initial (Some w))))
  = map (with_info_url i u) (get_tabs (after evs (initial (Some w))))
  /\ get_tabs (page_title_updated i u (after evs (initial (Some w))))
     = map (with_info_title i u) (get_tabs (after evs (initial (Some w))))
  /\ (~ In i (map TabInfo.id (get_tabs (after evs (initial (Some w))))) ->
      did_navigate i u (after evs (initial (Some w)))
      = after evs (initial (Some w))
      /\ page_title_updated i u (after evs (initial (Some w)))
         = after evs (initial (Some w))).
Proof.
  pose proof (run_Inv' w evs) as Hi.
  set (s := after evs (initial (Some w))) in *.
  split; [apply did_navigate_get_tabs, Hi|].
  split; [apply page_title_updated_get_tabs, Hi|].
  rewrite ids_of_get_tabs by assumption. intros Hout.
  assert (Eg : JsMap.get i (tabs s) = None).
  { destruct (JsMap.get i (tabs s)) eqn:E; [|reflexivity].
    exfalso. eauto using get_in_keys. }
  unfold did_navigate, page_title_updated. now rewrite Eg.
Qed.

Lemma page_events_update_witness :
  ~ In 7 (map TabInfo.id
            (get_tabs (after two_tabs_resized (initial (Some Scenario.window)))))
  /\ did_navigate 7 (lit "https://example.com/")
       (after two_tabs_resized (initial (Some Scenario.window)))
     = after two_tabs_resized (initial (Some Scenario.window)).
Proof.
  assert (H : ~ In 7 (map TabInfo.id
                        (get_tabs (after two_tabs_resized
                                     (initial (Some Scenario.window))))))
    by (vm_compute; intros [H|[H|[]]]; discriminate).
  split; [exact H|].
  exact (proj1 (proj2 (proj2 (page_events_update Scenario.window
                                two_tabs_resized 7
                                (lit "https://example.com/"))) H)).
Defined.

Lemma startsWith_fullUrl u : startsWith (fullUrl u) (lit "http") = true.
Proof.
  unfold fullUrl. destruct (startsWith u (lit "http")) eqn:E; [exact E|].
  reflexivity.
Qed.

(** X13 (navigation).  In a state a window has reached, ['navigate'] to
    a non-empty url ends with an active tab whose [webContents] was
    asked, last of all, to load the url, completed by ["https://"]
    unless it starts with ["http"]; a tab that was active stays the
    active one, and the answer of ['get-tabs'] stays as it was. *)
Theorem navigate_loads (w : BrowserWindow) (evs : list Event) (u : JsString) :
  u <> [] ->
  startsWith (fullUrl u) (lit "http") = true
  /\ exists a t pre,
       activeTabId (fst (navigate u (after evs (initial (Some w))))) = Some a
       /\ JsMap.get a (tabs (fst (navigate u (after evs (initial (Some w))))))
          = Some t
       /\ requests (webContents (view t)) = pre ++ [loadURL (fullUrl u)]
       /\ (forall a0,
             activeTabId (after evs (initial (Some w))) = Some a0 ->
             a = a0
             /\ get_tabs (fst (navigate u (after evs (initial (Some w)))))
                = get_tabs (after evs (initial (Some w)))).
Proof.
  pose proof (run_Inv' w evs) as Hi. pose proof (run_window w evs) as Hw.
  set (s := after evs (initial (Some w))) in *.
  intros Hu. split; [apply startsWith_fullUrl|].
  assert (Ht : truthy u = true) by (destruct u; [contradiction | reflexivity]).
  unfold navigate. destruct (activeTabId s) as [a|] eqn:Ea.
  - destruct (inv_active _ Hi _ Ea) as [Hin _].
    destruct (in_keys_get _ _ Hin) as [t0 Hg]. rewrite Hg. cbn [fst].
    exists a, (with_view (on_webContents (request (loadURL (fullUrl u)))) t0),
      (requests (webContents (view t0))).
    split; [exact Ea|]. split.
    + cbn [on_tab set_tabs tabs]. now rewrite get_modify, Z.eqb_refl, Hg.
    + split; [reflexivity|]. intros a0 [= <-]. split; [reflexivity|].
      apply get_tabs_on_tab.
  - cbn [fst]. exists (nextTabId s).
    eexists. exists [].
    split; [now apply createTab_active|].
    split; [|split; [|discriminate]].
    + unfold createTab. cbv zeta. cbn [fst]. rewrite send_opt_tabs, Ht.
      rewrite switchToTab_tabs.
      * rewrite get_show_or_hide. cbn [tabs on_tab set_tabs].
        rewrite get_modify, Z.eqb_refl, get_set, Z.eqb_refl.
        cbn [option_map]. unfold show_or_hide. cbn [fst snd].
        rewrite Z.eqb_refl. reflexivity.
      * exact Hw.
      * cbn [tabs on_tab set_tabs]. rewrite keys_modify.
        eapply get_in_keys, get_set_same.
    + reflexivity.
Qed.

Lemma navigate_loads_witness :
  lit "example.org" <> []
  /\ startsWith (fullUrl (lit "example.org")) (lit "http") = true.
Proof.
  assert (H : lit "example.org" <> []) by discriminate.
  split; [exact H|].
  exact (proj1 (navigate_loads Scenario.window two_tabs_resized
                  (lit "example.org") H)).
Defined.

End TabList.

(* ------------------------------------------------------------------ *)
(** ** From a screenshot to the socket *)

Module Capture.

Import Js.
Import Electron.
Import Main.
Import Invariant.
Import JsMapFacts.
Import MainFacts.
Import Window.
Import WindowFacts.
Import Base64.
Import Base64Facts.
Import App.

(** X14 (the way of a screenshot).  In a state a window has reached, a
    round of the screenshot interval sends the renderer a message
    exactly when a tab is active and the capture of its view gives an
    image; the payload is the base64 text of the image, and
    [sendScreenshot], called with it on an open socket, sends the one
    message [0x02] followed by the bytes of the image, and on a socket
    that is not open sends nothing. *)
Theorem screenshot_pipeline (w : BrowserWindow) (evs : list Event)
    (jpeg : WebContentsView -> option (list byte)) :
  match screenshot_tick jpeg (after evs (initial (Some w))) with
  | Some payload =>
      exists a t P,
        activeTabId (after evs (initial (Some w))) = Some a
        /\ JsMap.get a (tabs (after evs (initial (Some w)))) = Some t
        /\ jpeg (view t) = Some P
        /\ payload = toString_base64 P
        /\ (forall out,
              sendScreenshot payload (Some {| readyState := OPEN; sent := out |})
              = Some (Some {| readyState := OPEN;
                              sent := out ++ [binary (Byte.x02 :: P)] |}))
        /\ (forall ws, is_open ws = false ->
              sendScreenshot payload (Some ws) = Some (Some ws))
  | None =>
      activeTabId (after evs (initial (Some w))) = None
      \/ exists a t,
           activeTabId (after evs (initial (Some w))) = Some a
           /\ JsMap.get a (tabs (after evs (initial (Some w)))) = Some t
           /\ jpeg (view t) = None
  end.
Proof.
  pose proof (after_Inv evs _ (initial_Inv (Some w))) as Hi.
  assert (Hw : mainWindow (after evs (initial (Some w))) <> None)
    by (apply after_window; discriminate).
  set (s := after evs (initial (Some w))) in *.
  unfold screenshot_tick, captureActiveTab.
  destruct (activeTabId s) as [a|] eqn:Ea; [|now left].
  destruct (inv_active _ Hi _ Ea) as [Hin _].
  destruct (in_keys_get _ _ Hin) as [t Hg]. rewrite Hg.
  destruct (jpeg (view t)) as [P|] eqn:Ej.
  - destruct (mainWindow s) as [w'|]; [|contradiction].
    exists a, t, P.
    split; [reflexivity|]. split; [exact Hg|]. split; [exact Ej|].
    split; [reflexivity|]. split.
    + intros out. unfold sendScreenshot. cbn [is_open readyState].
      rewrite atob_toString_base64.
      now rewrite Transport.screenshot_frame_bytes, map_to_uint8.
    + intros ws Hc. unfold sendScreenshot. now rewrite Hc.
  - right. now exists a, t.
Qed.

Lemma screenshot_pipeline_witness :
  is_open {| readyState := CLOSED; sent := [] |} = false
  /\ match screenshot_tick (fun _ => Some [Byte.xff; Byte.xd8])
            (after Session.two_tabs_resized (initial (Some Scenario.window)))
     with
     | Some payload =>
         sendScreenshot payload (Some {| readyState := CLOSED; sent := [] |})
         = Some (Some {| readyState := CLOSED; sent := [] |})
     | None => True
     end.
Proof.
  split; [reflexivity|].
  pose proof (screenshot_pipeline Scenario.window Session.two_tabs_resized
                (fun _ => Some [Byte.xff; Byte.xd8])) as H.
  destruct (screenshot_tick (fun _ => Some [Byte.xff; Byte.xd8])
              (after Session.two_tabs_resized (initial (Some Scenario.window))))
    as [payload|]; [|exact I].
  destruct H as (a & t & P & _ & _ & _ & _ & _ & Hc).
  apply Hc. reflexivity.
Defined.

End Capture.

(* ------------------------------------------------------------------ *)
(** ** The log of the agent panel *)

Module Log.

Import Renderer.

Lemma slice_last (n : nat) {A : Type} (arr : list A) :
  slice (- Z.of_nat (S n)) arr = skipn (List.length arr - S n) arr.
Proof.
  unfold slice.
  replace (- Z.of_nat (S n) <? 0) with true by (symmetry; apply Z.ltb_lt; lia).
  f_equal. lia.
Qed.

Lemma logged_snoc calls e :
  logged (calls ++ [e])
  = addLog (type e) (text e) (timestamp e) (logged calls).
Proof. unfold logged. now rewrite fold_left_app. Qed.

(** X15 (the log is bounded).  After any calls of [addLog], the log
    holds the entries of the last 51 calls, in the order of the calls,
    and so never more than 51 entries. *)
Theorem log_keeps_last_51 (calls : list LogEntry) :
  logged calls = skipn (List.length calls - 51) calls
  /\ (List.length (logged calls) <= 51)%nat.
Proof.
  assert (H : logged calls = skipn (List.length calls - 51) calls).
  { induction calls as [|e calls IH] using rev_ind; [reflexivity|].
    rewrite logged_snoc, IH. unfold addLog.
    change (-50) with (- Z.of_nat 50). rewrite slice_last.
    rewrite length_skipn, skipn_skipn, length_app. cbn [List.length].
    destruct e as [ty txt now]. cbn [type text timestamp].
    rewrite skipn_app.
    replace (List.length calls + 1 - 51 - List.length calls)%nat
      with 0%nat by lia.
    cbn [skipn]. f_equal. f_equal. lia. }
  split; [exact H|]. rewrite H, length_skipn. lia.
Qed.

End Log.

(* ------------------------------------------------------------------ *)
(** ** The samples of the microphone *)

Module Samples.

Import QArith_base.
Import Qround.
Import VoiceOrb.
Local Open Scope Z_scope.

Lemma scaled_le (x y : Q) :
  Qle x y -> Qle (Qmult x (inject_Z 32768)) (Qmult y (inject_Z 32768)).
Proof. intros H. apply Qmult_le_compat_r; [assumption | discriminate]. Qed.

Lemma to_int16_small (v : Z) : -32768 <= v <= 32767 -> to_int16 v = v.
Proof. intros H. unfold to_int16. rewrite Z.mod_small; lia. Qed.

(** X16 (quantisation).  For every finite sample the value stored in
    the [Int16Array] is the clamped one, between -32768 and 32767: the
    store never wraps.  The conversion is monotone; on samples of
    [-1 .. 1) it is the floor of the sample times [2^15], and a sample
    of 1 or more gives 32767. *)
Theorem quantize_is_sound (x y : Q) :
  -32768 <= quantize x <= 32767
  /\ stored x = quantize x
  /\ (Qle x y -> quantize x <= quantize y)
  /\ (Qle (inject_Z (-1)) x -> Qlt x (inject_Z 1) ->
      quantize x = Qfloor (Qmult x (inject_Z 32768)))
  /\ (Qle (inject_Z 1) x -> quantize x = 32767).
Proof.
  assert (Hr : -32768 <= quantize x <= 32767) by (unfold quantize; lia).
  split; [exact Hr|]. split; [now apply to_int16_small|].
  split; [|split].
  - intros H. apply scaled_le, Qfloor_resp_le in H. unfold quantize. lia.
  - intros Hlo Hhi. unfold quantize.
    assert (H1 : -32768 <= Qfloor (Qmult x (inject_Z 32768))).
    { apply scaled_le, Qfloor_resp_le in Hlo.
      change (Qfloor (Qmult (inject_Z (-1)) (inject_Z 32768))) with (-32768) in Hlo.
      exact Hlo. }
    assert (H2 : Qfloor (Qmult x (inject_Z 32768)) < 32768).
    { rewrite Zlt_Qlt. eapply Qle_lt_trans; [apply Qfloor_le|].
      change (inject_Z 32768) with (Qmult (inject_Z 1) (inject_Z 32768)) at 2.
      apply Qmult_lt_compat_r; [reflexivity | assumption]. }
    lia.
  - intros H. apply scaled_le, Qfloor_resp_le in H.
    change (Qfloor (Qmult (inject_Z 1) (inject_Z 32768))) with 32768 in H.
    unfold quantize. lia.
Qed.

Lemma quantize_is_sound_witness :
  Qle (Qmake 1 2) (Qmake 3 4)
  /\ quantize (Qmake 1 2) <= quantize (Qmake 3 4).
Proof.
  assert (H : Qle (Qmake 1 2) (Qmake 3 4)) by (unfold Qle; simpl; lia).
  split; [exact H|].
  exact (proj1 (proj2 (proj2 (quantize_is_sound (Qmake 1 2) (Qmake 3 4)))) H).
Defined.

End Samples.
